(** * AI-Care: the transcription session and the session-finish workflow

    A shallow embedding of

    - [src/contexts/transcription-context.tsx]: [TranscriptionProvider]
      (state [isTranscribing], [transcript], [transcriptionInterval] and the
      operations [startTranscription], [stopTranscription],
      [resetTranscription], [generateSummary]) and [useTranscription];
    - [src/components/patients/new-session-form.tsx]: the state of
      [NewSessionForm] and its handlers [handleStartTranscription],
      [handleStopTranscription], [handleFinishSession], the timer effect and
      the conditions under which its controls are rendered.

    React state is a record; a handler is a state transformer that reads the
    state of the render it was created in (its closure, an explicit
    argument) and writes through the setters.  The host's interval timers
    are a finite map from handles to the callbacks that are still scheduled;
    a cancelled handle is no longer in the map and never fires. *)

From stdpp Require Import gmap strings list fin_maps.
From Stdlib Require Import Ascii String NArith.

Local Open Scope string_scope.
Local Open Scope list_scope.

(** ** JavaScript strings

    Strings are sequences of code units; the development works with the code
    units below 256, which is all the transcript ever holds (the script of
    the mock is ASCII). *)

Module JS.

(** The code units below 256 that [String.prototype.trim] strips:
    TAB, LF, VT, FF, CR, SPACE and NBSP. *)
Definition isWhiteSpace (a : ascii) : bool :=
  existsb (N.eqb (N_of_ascii a)) [9; 10; 11; 12; 13; 32; 160]%N.

Fixpoint trimStart (s : string) : string :=
  match s with
  | EmptyString => EmptyString
  | String a s' => if isWhiteSpace a then trimStart s' else s
  end.

Fixpoint trimEnd (s : string) : string :=
  match s with
  | EmptyString => EmptyString
  | String a s' =>
      match trimEnd s' with
      | EmptyString => if isWhiteSpace a then EmptyString else String a EmptyString
      | t => String a t
      end
  end.

Definition trim (s : string) : string := trimEnd (trimStart s).

(** ToBoolean on a string: only the empty string is falsy. *)
Definition truthy (s : string) : bool :=
  match s with EmptyString => false | String _ _ => true end.

(** ["\n"]. *)
Definition LF : string := String (ascii_of_nat 10) EmptyString.

(** An [Error] object: its [name] and its [message]. *)
Record Error := mkError { name : string; message : string }.

(** How a call ends: with a value, or with a thrown error. *)
Inductive Completion (A : Type) :=
| Return (v : A)
| Throw (e : Error).
Arguments Return {A} v.
Arguments Throw {A} e.

(** How a promise settles. *)
Inductive Settled (A : Type) :=
| Fulfilled (v : A)
| Rejected (reason : Error).
Arguments Fulfilled {A} v.
Arguments Rejected {A} reason.

End JS.

Import JS.

(** ** Data *)

(** A timer handle, as returned by [setInterval]. *)
Abbreviation handle := nat.

(** What the summarizer returns. *)
Record Summary := mkSummary {
  text : string;
  keyPoints : list string;
  prescriptions : list string
}.

(** The record handed to [addSession]. *)
Module Session.
Record t := mk {
  id : string;
  title : string;
  date : string;
  duration : nat;
  transcript : string;
  summary : string;
  keyPoints : list string;
  prescriptions : list string
}.
End Session.

(** The argument of [toast]; [variant] is absent on the plain toasts. *)
Record Toast := mkToast {
  toast_title : string;
  toast_description : string;
  toast_variant : option string
}.

(** The three [useState] cells of [TranscriptionProvider]. *)
Record TranscriptionState := mkTranscription {
  isTranscribing : bool;
  transcript : string;
  transcriptionInterval : option handle
}.

(** The four [useState] cells of [NewSessionForm]. *)
Record FormState := mkForm {
  sessionTitle : string;
  isGeneratingSummary : bool;
  sessionDuration : nat;
  timer : option handle
}.

(** A callback scheduled with [setInterval].  The fragment source of
    [startTranscription] owns the local [index]; the duration counter of
    [handleStartTranscription] has no state of its own. *)
Inductive Callback :=
| FragmentSource (index : nat)
| DurationCounter.

#[global] Instance Callback_eq_dec : EqDecision Callback.
Proof. solve_decision. Defined.

(** The application: both components' state, the host's live intervals and
    the next handle it hands out, and what reached the collaborators (the
    toasts shown, the [addSession] calls with their patient id, the number
    of [onSessionComplete] calls). *)
Record World := mkWorld {
  provider : TranscriptionState;
  form : FormState;
  intervals : gmap nat Callback;
  nextHandle : handle;
  toasts : list Toast;
  sessions : list (string * Session.t);
  completions : nat
}.

(** First render: both components in their [useState] defaults, nothing
    scheduled.  Handles are positive, so a stored handle is truthy. *)
Definition initial : World :=
  {| provider := mkTranscription false "" None;
     form := mkForm "" false 0 None;
     intervals := ∅;
     nextHandle := 1;
     toasts := [];
     sessions := [];
     completions := 0 |}.

(** ** Effects: a state monad over the world *)

Definition M (A : Type) : Type := World → A * World.

Definition ret {A} (a : A) : M A := λ w, (a, w).
Definition bind {A B} (m : M A) (k : A → M B) : M B :=
  λ w, let '(a, w') := m w in k a w'.
Definition exec {A} (m : M A) (w : World) : World := (m w).2.

Declare Scope js_scope.
Delimit Scope js_scope with js.
Notation "x <- m ;; k" := (bind m (λ x, k))
  (at level 100, m at next level, right associativity) : js_scope.
Notation "m ;; k" := (bind m (λ _, k))
  (at level 100, right associativity) : js_scope.
Local Open Scope js_scope.

Definition with_provider (f : TranscriptionState → TranscriptionState) : M unit :=
  λ w, (tt, mkWorld (f (provider w)) (form w) (intervals w) (nextHandle w)
                    (toasts w) (sessions w) (completions w)).

Definition with_form (f : FormState → FormState) : M unit :=
  λ w, (tt, mkWorld (provider w) (f (form w)) (intervals w) (nextHandle w)
                    (toasts w) (sessions w) (completions w)).

(** The setters of [TranscriptionProvider]. *)
Definition setIsTranscribing (b : bool) : M unit :=
  with_provider (λ p, mkTranscription b (transcript p) (transcriptionInterval p)).
Definition setTranscript (f : string → string) : M unit :=
  with_provider (λ p, mkTranscription (isTranscribing p) (f (transcript p))
                                      (transcriptionInterval p)).
Definition setTranscriptionInterval (h : option handle) : M unit :=
  with_provider (λ p, mkTranscription (isTranscribing p) (transcript p) h).

(** The setters of [NewSessionForm]. *)
Definition setSessionTitle (s : string) : M unit :=
  with_form (λ f, mkForm s (isGeneratingSummary f) (sessionDuration f) (timer f)).
Definition setIsGeneratingSummary (b : bool) : M unit :=
  with_form (λ f, mkForm (sessionTitle f) b (sessionDuration f) (timer f)).
Definition setSessionDuration (g : nat → nat) : M unit :=
  with_form (λ f, mkForm (sessionTitle f) (isGeneratingSummary f)
                         (g (sessionDuration f)) (timer f)).
Definition setTimer (h : option handle) : M unit :=
  with_form (λ f, mkForm (sessionTitle f) (isGeneratingSummary f) (sessionDuration f) h).

(** The host: [setInterval] schedules the callback under a fresh handle,
    [clearInterval] unschedules it (and does nothing on a handle that is not
    scheduled); [reschedule] keeps a callback's own local state. *)
Definition setInterval (c : Callback) : M handle :=
  λ w, (nextHandle w,
        mkWorld (provider w) (form w) (<[nextHandle w := c]> (intervals w))
                (S (nextHandle w)) (toasts w) (sessions w) (completions w)).
Definition clearInterval (h : handle) : M unit :=
  λ w, (tt, mkWorld (provider w) (form w) (delete h (intervals w)) (nextHandle w)
                    (toasts w) (sessions w) (completions w)).
Definition reschedule (h : handle) (c : Callback) : M unit :=
  λ w, (tt, mkWorld (provider w) (form w) (<[h := c]> (intervals w)) (nextHandle w)
                    (toasts w) (sessions w) (completions w)).

(** The collaborators. *)
Definition toast (t : Toast) : M unit :=
  λ w, (tt, mkWorld (provider w) (form w) (intervals w) (nextHandle w)
                    (toasts w ++ [t]) (sessions w) (completions w)).
Definition addSession (patientId : string) (s : Session.t) : M unit :=
  λ w, (tt, mkWorld (provider w) (form w) (intervals w) (nextHandle w)
                    (toasts w) (sessions w ++ [(patientId, s)]) (completions w)).
Definition onSessionComplete : M unit :=
  λ w, (tt, mkWorld (provider w) (form w) (intervals w) (nextHandle w)
                    (toasts w) (sessions w) (S (completions w))).

(** ** [TranscriptionProvider] *)

(** The script of the mock transcription service. *)
Definition mockPhrases : list string := [
  "Doctor: Good morning, how are you feeling today?";
  "Patient: I've been having some trouble sleeping lately.";
  "Doctor: I'm sorry to hear that. How long has this been going on?";
  "Patient: For about two weeks now. I think it might be stress-related.";
  "Doctor: That's certainly possible. Let's talk about your stress levels and sleep habits.";
  "Patient: I've been working longer hours and have a big project due soon.";
  "Doctor: I see. Are you having trouble falling asleep or staying asleep?";
  "Patient: Mostly falling asleep. My mind just keeps racing with thoughts about work.";
  "Doctor: That's common with stress-induced insomnia. Let's discuss some strategies that might help.";
  "Patient: That would be great. I've tried over-the-counter sleep aids but they leave me groggy.";
  "Doctor: I understand. Let's focus on sleep hygiene practices first before considering medication."
].

(** [mockPhrases[index]]; an index out of range reads [undefined], which
    string concatenation prints. *)
Definition phraseAt (index : nat) : string :=
  default "undefined" (mockPhrases !! index).

(** The updater [(prev) => prev + (prev ? "\n\n" : "") + mockPhrases[index]]. *)
Definition appendPhrase (index : nat) (prev : string) : string :=
  (prev +:+ (if truthy prev then LF +:+ LF else "")) +:+ phraseAt index.

(** When React runs the updater that a timer callback has passed to
    [setTranscript]: at once, inside the call (React computes the next state
    eagerly when nothing else is queued on the component), or at the next
    render, after the callback has returned. *)
Inductive UpdaterRun :=
| Eager
| AtRender.

(** What the updater of a tick reads in [mockPhrases[index]].  The updater
    closes over the variable [index], not over its value: run inside the
    call it reads the [index] the callback tested; run at the next render it
    reads the variable after the callback's [index++]. *)
Definition readIndex (u : UpdaterRun) (index : nat) : nat :=
  match u with
  | Eager => index
  | AtRender => S index
  end.

(** One run of the callback that [startTranscription] schedules under the
    handle [interval], with its local [index], when React runs the updater
    as [u] says.  [prev] is the transcript either way: nothing changes it
    between the call and the render. *)
Definition fragmentCallback (interval : handle) (index : nat) (u : UpdaterRun) : M unit :=
  if bool_decide (index < List.length mockPhrases) then
    setTranscript (appendPhrase (readIndex u index)) ;;
    reschedule interval (FragmentSource (S index))
  else
    clearInterval interval.

Definition startTranscription : M unit :=
  setIsTranscribing true ;;
  interval <- setInterval (FragmentSource 0) ;;
  setTranscriptionInterval (Some interval).

(** [stopTranscription] reads [transcriptionInterval] from the render [r]
    that created it. *)
Definition stopTranscription (r : TranscriptionState) : M unit :=
  setIsTranscribing false ;;
  match transcriptionInterval r with
  | Some h => clearInterval h ;; setTranscriptionInterval None
  | None => ret tt
  end.

Definition resetTranscription (r : TranscriptionState) : M unit :=
  stopTranscription r ;;
  setTranscript (λ _, "").

(** The object the mock summarizer resolves to. *)
Definition mockSummary : Summary :=
  {| text := "Patient reported difficulty sleeping for the past two weeks, primarily trouble falling asleep due to racing thoughts about work. Patient attributes the issue to increased stress from longer work hours and an upcoming project deadline. Patient has tried over-the-counter sleep aids but experienced grogginess as a side effect. Discussed sleep hygiene practices as a first-line approach before considering medication.";
     keyPoints := [
       "Insomnia for past two weeks";
       "Difficulty falling asleep due to racing thoughts";
       "Work-related stress as likely cause";
       "Previous negative experience with OTC sleep aids";
       "Sleep hygiene practices recommended"
     ];
     prescriptions := [] |}.

(** [generateSummary]: how the promise settles once the two-second delay
    has passed. *)
Definition generateSummary (transcript : string) : Settled Summary :=
  Fulfilled mockSummary.

(** The value the provider puts in the context at a render. *)
Module Ctx.
Record t := mk {
  isTranscribing : bool;
  transcript : string;
  startTranscription : M unit;
  stopTranscription : M unit;
  resetTranscription : M unit;
  generateSummary : string → Settled Summary
}.
End Ctx.

Definition TranscriptionProvider (r : TranscriptionState) : Ctx.t :=
  {| Ctx.isTranscribing := isTranscribing r;
     Ctx.transcript := transcript r;
     Ctx.startTranscription := startTranscription;
     Ctx.stopTranscription := stopTranscription r;
     Ctx.resetTranscription := resetTranscription r;
     Ctx.generateSummary := generateSummary |}.

(** [useTranscription], on what [useContext(TranscriptionContext)] reads:
    [None] is the [undefined] default of [createContext]. *)
Definition useTranscription (context : option Ctx.t) : Completion Ctx.t :=
  match context with
  | None =>
      Throw (mkError "Error" "useTranscription must be used within a TranscriptionProvider")
  | Some c => Return c
  end.

(** ** [NewSessionForm] *)

(** The props. *)
Record NewSessionFormProps := mkProps { patientId : string }.

(** What a handler of the form closes over: the context value it got from
    [useTranscription] and the form state of its render. *)
Record Closure := mkClosure { ctx : Ctx.t; self : FormState }.

(** The cleanup of [useEffect(..., [timer])]: it runs when a commit changes
    [timer], on the value [timer] had before. *)
Definition timerEffectCleanup (before : FormState) : M unit :=
  λ w, if decide (timer (form w) = timer before) then (tt, w)
       else match timer before with
            | Some h => clearInterval h w
            | None => (tt, w)
            end.

Definition durationCallback : M unit :=
  setSessionDuration (λ prev, prev + 1).

Definition handleStartTranscription (c : Closure) : M unit :=
  Ctx.startTranscription (ctx c) ;;
  interval <- setInterval DurationCounter ;;
  setTimer (Some interval) ;;
  toast (mkToast "Transcription Started"
                 "The session is now being recorded and transcribed." None).

Definition handleStopTranscription (c : Closure) : M unit :=
  Ctx.stopTranscription (ctx c) ;;
  match timer (self c) with
  | Some h => clearInterval h ;; setTimer None
  | None => ret tt
  end ;;
  toast (mkToast "Transcription Stopped"
                 "The session recording has been paused." None).

(** The toasts of [handleFinishSession]. *)
Definition missingTitleToast : Toast :=
  mkToast "Error" "Please enter a session title." (Some "destructive").
Definition emptyTranscriptToast : Toast :=
  mkToast "Error" "The transcript is empty. Please record a session first."
          (Some "destructive").
Definition sessionCompletedToast : Toast :=
  mkToast "Session Completed"
          "The session has been saved and summarized successfully." None.
Definition summaryFailedToast : Toast :=
  mkToast "Error" "Failed to generate summary. Please try again." (Some "destructive").

(** [sessionDuration || 1]. *)
Definition durationOrOne (sessionDuration : nat) : nat :=
  match sessionDuration with 0 => 1 | S _ => sessionDuration end.

(** [handleFinishSession] up to its [await]: either it has returned, or it
    is suspended on [generateSummary(transcript)]. *)
Inductive Suspended :=
| Returned
| Awaiting (transcript : string).

Definition handleFinishSession_enter (c : Closure) : M Suspended :=
  if negb (truthy (sessionTitle (self c))) then
    toast missingTitleToast ;;
    ret Returned
  else if bool_decide (String.length (trim (Ctx.transcript (ctx c))) = 0) then
    toast emptyTranscriptToast ;;
    ret Returned
  else
    setIsGeneratingSummary true ;;
    ret (Awaiting (Ctx.transcript (ctx c))).

(** [handleFinishSession] from the point the awaited promise settles:
    [randomUUID] and [now] are what [crypto.randomUUID()] and
    [new Date().toISOString()] give at that moment. *)
Definition handleFinishSession_resume (props : NewSessionFormProps) (c : Closure)
    (randomUUID now : string) (settled : Settled Summary) : M unit :=
  match settled with
  | Fulfilled summary =>
      addSession (patientId props)
        {| Session.id := randomUUID;
           Session.title := sessionTitle (self c);
           Session.date := now;
           Session.duration := durationOrOne (sessionDuration (self c));
           Session.transcript := Ctx.transcript (ctx c);
           Session.summary := text summary;
           Session.keyPoints := keyPoints summary;
           Session.prescriptions := prescriptions summary |} ;;
      toast sessionCompletedToast ;;
      setSessionTitle "" ;;
      setSessionDuration (λ _, 0) ;;
      Ctx.resetTranscription (ctx c) ;;
      onSessionComplete
  | Rejected _ =>
      toast summaryFailedToast
  end ;;
  setIsGeneratingSummary false.

(** The whole of [handleFinishSession] when nothing else runs while it is
    suspended. *)
Definition handleFinishSession (props : NewSessionFormProps) (c : Closure)
    (randomUUID now : string) : M unit :=
  s <- handleFinishSession_enter c ;;
  match s with
  | Returned => ret tt
  | Awaiting t =>
      handleFinishSession_resume props c randomUUID now (Ctx.generateSummary (ctx c) t)
  end.

(** Which controls the form renders: the start button when not
    transcribing, the pause button when transcribing, and the finish button
    enabled unless a summary is being generated or the transcript is blank. *)
Definition startOffered (c : Closure) : bool := negb (Ctx.isTranscribing (ctx c)).
Definition stopOffered (c : Closure) : bool := Ctx.isTranscribing (ctx c).
Definition finishEnabled (c : Closure) : bool :=
  negb (isGeneratingSummary (self c)
        || bool_decide (String.length (trim (Ctx.transcript (ctx c))) = 0)).

(** ** Executions *)

(** What can happen between two renders: a consumer calls one of the
    context's operations (the clear button of the form calls
    [resetTranscription] directly), the user presses the start or the pause
    button of the form, or the host runs the callback of a handle (and
    React runs the updater it queues as [u] says). *)
Inductive Event :=
| StartTranscription
| StopTranscription
| ResetTranscription
| HandleStartTranscription
| HandleStopTranscription
| Fire (h : handle) (u : UpdaterRun).

(** The handlers of the current render. *)
Definition closure (w : World) : Closure :=
  mkClosure (TranscriptionProvider (provider w)) (form w).

(** The host runs the callback scheduled under [h], if it still is. *)
Definition fire (h : handle) (u : UpdaterRun) : M unit :=
  λ w, match intervals w !! h with
       | Some (FragmentSource index) => fragmentCallback h index u w
       | Some DurationCounter => durationCallback w
       | None => (tt, w)
       end.

Definition handler (e : Event) (c : Closure) : M unit :=
  match e with
  | StartTranscription => Ctx.startTranscription (ctx c)
  | StopTranscription => Ctx.stopTranscription (ctx c)
  | ResetTranscription => Ctx.resetTranscription (ctx c)
  | HandleStartTranscription => handleStartTranscription c
  | HandleStopTranscription => handleStopTranscription c
  | Fire h u => fire h u
  end.

(** One event: the handler of the current render runs, the state updates
    are committed and the timer effect is cleaned up if [timer] changed. *)
Definition dispatch (e : Event) (w : World) : World :=
  exec (handler e (closure w) ;; timerEffectCleanup (form w)) w.

Definition run (tr : list Event) (w : World) : World :=
  fold_left (λ w e, dispatch e w) tr w.




Definition isFragmentSource (c : Callback) : bool :=
  match c with FragmentSource _ => true | DurationCounter => false end.

Definition isDurationCounter (c : Callback) : bool :=
  match c with FragmentSource _ => false | DurationCounter => true end.

(** The handles under which a fragment source, resp. a duration counter, is
    still scheduled. *)
Definition fragmentSources (w : World) : list handle :=
  (List.filter (λ hc, isFragmentSource hc.2) (map_to_list (intervals w))).*1.

Definition durationCounters (w : World) : list handle :=
  (List.filter (λ hc, isDurationCounter hc.2) (map_to_list (intervals w))).*1.

(** ** Vocabulary of the properties *)


(** The scheduled callbacks once the handle [o], if any, is cleared. *)
Definition cleared (o : option handle) (m : gmap nat Callback) : gmap nat Callback :=
  match o with
  | Some h => delete h m
  | None => m
  end.

(** Handles are handed out in increasing order: what is scheduled, and
    what the form tracks, was handed out already. *)
Definition handlesFresh (w : World) : Prop :=
  (∀ h c, intervals w !! h = Some c → h < nextHandle w)
  ∧ (∀ h, timer (form w) = Some h → h < nextHandle w)
  ∧ (∀ h, transcriptionInterval (provider w) = Some h → h < nextHandle w).

(** The form's [timer] never names a fragment source. *)
Definition timerIsNoSource (w : World) : Prop :=
  ∀ h i, timer (form w) = Some h → intervals w !! h ≠ Some (FragmentSource i).

(** Every scheduled duration counter is the one the form tracks. *)
Definition countersTracked (w : World) : Prop :=
  ∀ h, intervals w !! h = Some DurationCounter → timer (form w) = Some h.



(** What holds in every state an execution reaches. *)
Definition wellFormed (w : World) : Prop :=
  handlesFresh w ∧ timerIsNoSource w ∧ countersTracked w.

(** ** The form with finishes in flight *)

(** The application together with the [handleFinishSession] calls that are
    suspended on their [await], oldest first, each with the handlers of the
    render that started it. *)
Record App := mkApp {
  world : World;
  pending : list Closure
}.

Definition initialApp : App := mkApp initial [].

(** What the user and the host can do to the form: one of the events
    above, typing in the title field ([onChange] calls [setSessionTitle]),
    pressing the finish button, and the settling of the oldest pending
    [generateSummary] promise (all of them wait the same two seconds). *)
Inductive Action :=
| Do (e : Event)
| ChangeTitle (value : string)
| PressFinish
| Settle (randomUUID now : string).

Definition act (props : NewSessionFormProps) (a : Action) (app : App) : App :=
  let w := world app in
  match a with
  | Do e => mkApp (dispatch e w) (pending app)
  | ChangeTitle value =>
      mkApp (exec (setSessionTitle value ;; timerEffectCleanup (form w)) w) (pending app)
  | PressFinish =>
      match handleFinishSession_enter (closure w) w with
      | (Returned, w') => mkApp w' (pending app)
      | (Awaiting _, w') => mkApp w' (pending app ++ [closure w])
      end
  | Settle randomUUID now =>
      match pending app with
      | [] => app
      | c :: rest =>
          mkApp (exec (handleFinishSession_resume props c randomUUID now
                         (Ctx.generateSummary (ctx c) (Ctx.transcript (ctx c))) ;;
                       timerEffectCleanup (form w)) w)
                rest
      end
  end.

Definition runApp (props : NewSessionFormProps) (acts : list Action) (app : App) : App :=
  fold_left (λ app a, act props a app) acts app.

(** What the rendered form lets happen: the start button exists while not
    transcribing and the pause button while transcribing, the clear button
    and the title field always; the finish button is disabled while a
    summary is being generated or the transcript is blank; no control calls
    the context's start or stop directly. *)
Definition offered (a : Action) (app : App) : bool :=
  let c := closure (world app) in
  match a with
  | Do HandleStartTranscription => startOffered c
  | Do HandleStopTranscription => stopOffered c
  | Do ResetTranscription => true
  | Do (Fire _ _) => true
  | Do StartTranscription | Do StopTranscription => false
  | ChangeTitle _ => true
  | PressFinish => finishEnabled c
  | Settle _ _ => true
  end.

Fixpoint allOffered (props : NewSessionFormProps) (acts : list Action) (app : App) : bool :=
  match acts with
  | [] => true
  | a :: acts' => offered a app && allOffered props acts' (act props a app)
  end.

(** The fragments [l] with [sep] between them. *)
Fixpoint joinWith (sep : string) (l : list string) : string :=
  match l with
  | [] => ""
  | p :: l' =>
      match l' with
      | [] => p
      | _ :: _ => p +:+ sep +:+ joinWith sep l'
      end
  end.

(** A record as [handleFinishSession] may hand it to [addSession]. *)
Definition wellFormedRecord (s : Session.t) : Prop :=
  Session.title s ≠ ""
  ∧ String.length (trim (Session.transcript s)) ≠ 0
  ∧ (1 ≤ Session.duration s)%nat
  ∧ Session.summary s = text mockSummary
  ∧ Session.keyPoints s = keyPoints mockSummary
  ∧ Session.prescriptions s = [].

(** A suspended finish: it passed the validation and holds the provider's
    context of some render. *)
Definition validPending (c : Closure) : Prop :=
  truthy (sessionTitle (self c)) = true
  ∧ String.length (trim (Ctx.transcript (ctx c))) ≠ 0
  ∧ ∃ r, ctx c = TranscriptionProvider r.

(** What a tick can append: a phrase of the script, or the text that
    [mockPhrases[index]] prints when it is read past the end of the script. *)
Definition isFragment (p : string) : Prop :=
  p ∈ mockPhrases ∨ p = "undefined".

(** The transcript is fragments with a blank line between them. *)
Definition transcriptOfPhrases (w : World) : Prop :=
  ∃ l, Forall isFragment l
       ∧ transcript (provider w) = joinWith (LF +:+ LF) l.

(** An idle session tracks no handle. *)
Definition idleTracksNothing (w : World) : Prop :=
  isTranscribing (provider w) = false → transcriptionInterval (provider w) = None.

(** The provider's tracked handle never names a duration counter. *)
Definition trackedIsNoCounter (w : World) : Prop :=
  ∀ h, transcriptionInterval (provider w) = Some h →
       intervals w !! h ≠ Some DurationCounter.

(** The handle the provider tracks once the [stopTranscription] of the
    render [r] has run: it calls [setTranscriptionInterval(null)] only when
    its own render tracked a handle. *)
Definition trackedAfterStop (r : TranscriptionState) (current : option handle)
    : option handle :=
  match transcriptionInterval r with
  | Some _ => None
  | None => current
  end.

(** The fragments that the ticks of a source append, one timing per tick,
    when the first of them finds the source at [index]. *)
Definition tickFragments (index : nat) (us : list UpdaterRun) : list string :=
  imap (λ i u, phraseAt (readIndex u (index + i))) us.

(** What holds of the form after any sequence of actions. *)
Definition appInvariant (props : NewSessionFormProps) (app : App) : Prop :=
  Forall validPending (pending app)
  ∧ transcriptOfPhrases (world app)
  ∧ countersTracked (world app)
  ∧ Forall (λ ps, ps.1 = patientId props ∧ wellFormedRecord ps.2) (sessions (world app))
  ∧ List.length (sessions (world app)) = completions (world app).

(** The form's [timer] names a scheduled duration counter. *)
Definition timerNamesCounter (w : World) : Prop :=
  ∀ h, timer (form w) = Some h → intervals w !! h = Some DurationCounter.

(** A handle that was handed out and is not a duration counter. *)
Definition noCounterAt (h : handle) (w : World) : Prop :=
  h < nextHandle w ∧ intervals w !! h ≠ Some DurationCounter.

(** What holds of the timers after any sequence of actions: the handles a
    suspended finish will clear are among those that name no counter. *)
Definition timersInvariant (app : App) : Prop :=
  handlesFresh (world app)
  ∧ trackedIsNoCounter (world app)
  ∧ timerNamesCounter (world app)
  ∧ Forall (λ c, ∃ r, ctx c = TranscriptionProvider r
                      ∧ ∀ h, transcriptionInterval r = Some h → noCounterAt h (world app))
           (pending app).

(** ** Utilities

    The helpers that follow [NewSessionForm] in
    [src/components/patients/new-session-form.tsx]: [truncateText],
    [getInitials] and [calculateAge]. *)

(** [text.slice(0, end)] for an integer [end]: a negative [end] counts from
    the end of the string. *)
Definition slice0 (text : string) (e : Z) : string :=
  let len := Z.of_nat (String.length text) in
  let to := if (e <? 0)%Z then Z.max (len + e) 0 else Z.min e len in
  substring 0 (Z.to_nat to) text.

(** [truncateText], for an integer [maxLength]. *)
Definition truncateText (text : string) (maxLength : Z) : string :=
  if (Z.of_nat (String.length text) <=? maxLength)%Z then text
  else slice0 text maxLength +:+ "...".

(** [name.split(" ")]: the pieces between the spaces, empty ones included. *)
Fixpoint splitSpace (s : string) : list string :=
  match s with
  | EmptyString => [EmptyString]
  | String a s' =>
      if Ascii.eqb a " " then EmptyString :: splitSpace s'
      else match splitSpace s' with
           | [] => [String a EmptyString]
           | piece :: pieces => String a piece :: pieces
           end
  end.

(** [n[0]]: the first code unit, [undefined] on the empty string. *)
Definition firstUnit (n : string) : option ascii :=
  match n with
  | EmptyString => None
  | String a _ => Some a
  end.

(** [.join("")]: [undefined] elements print as the empty string. *)
Definition joinUnits (l : list (option ascii)) : string :=
  fold_right (λ o acc, match o with
                       | Some a => String a acc
                       | None => acc
                       end) EmptyString l.

(** [toUpperCase] on the ASCII code units: the letters a-z move to A-Z. *)
Definition upperUnit (a : ascii) : ascii :=
  let n := N_of_ascii a in
  if ((97 <=? n) && (n <=? 122))%N then ascii_of_N (n - 32) else a.

Fixpoint toUpperCase (s : string) : string :=
  match s with
  | EmptyString => EmptyString
  | String a s' => String (upperUnit a) (toUpperCase s')
  end.

(** [getInitials], for names of ASCII code units. *)
Definition getInitials (name : string) : string :=
  toUpperCase (joinUnits (List.map firstUnit (splitSpace name))).

Definition isAsciiUnit (a : ascii) : bool := (N_of_ascii a <? 128)%N.

Fixpoint isAsciiString (s : string) : bool :=
  match s with
  | EmptyString => true
  | String a s' => isAsciiUnit a && isAsciiString s'
  end.

Fixpoint hasSpace (s : string) : bool :=
  match s with
  | EmptyString => false
  | String a s' => Ascii.eqb a " " || hasSpace s'
  end.

(** What [calculateAge] reads of a valid [Date]: [getFullYear()],
    [getMonth()] and [getDate()]. *)
Record JsDate := mkDate {
  getFullYear : Z;
  getMonth : Z;
  getDate : Z
}.

(** [calculateAge], with [today] for its [new Date()]. *)
Definition calculateAge (today dateOfBirth : JsDate) : Z :=
  let age := (getFullYear today - getFullYear dateOfBirth)%Z in
  let monthDifference := (getMonth today - getMonth dateOfBirth)%Z in
  if (monthDifference <? 0)%Z
     || ((monthDifference =? 0)%Z && (getDate today <? getDate dateOfBirth)%Z)
  then (age - 1)%Z
  else age.

(** Calendar order on year, month and day. *)
Definition dateLt (y1 m1 d1 y2 m2 d2 : Z) : Prop :=
  (y1 < y2 ∨ (y1 = y2 ∧ (m1 < m2 ∨ (m1 = m2 ∧ d1 < d2))))%Z.

Definition dateLe (y1 m1 d1 y2 m2 d2 : Z) : Prop :=
  dateLt y1 m1 d1 y2 m2 d2 ∨ (y1 = y2 ∧ m1 = m2 ∧ d1 = d2).

(** ** Proof tactics *)

Tactic Notation "world" constr(w) :=
  destruct w as [[a t i] [ti g d tm] m n ts ss cs].

Ltac dispatch_cbn :=
  unfold dispatch, exec, handler, bind; cbn;
  unfold timerEffectCleanup, fire, fragmentCallback, bind; cbn.

(** * Properties *)

(** ** Strings *)

Lemma append_cons (a : ascii) (s1 s2 : string) :
  String a s1 +:+ s2 = String a (s1 +:+ s2).
Proof. reflexivity. Qed.

Lemma append_nil_r (s : string) : s +:+ "" = s.
Proof. induction s as [|a s IH]; [done | by rewrite append_cons, IH]. Qed.

Lemma append_assoc (s1 s2 s3 : string) : (s1 +:+ s2) +:+ s3 = s1 +:+ (s2 +:+ s3).
Proof. induction s1 as [|a s1 IH]; [done | by rewrite !append_cons, IH]. Qed.

Lemma length_append (s1 s2 : string) :
  String.length (s1 +:+ s2) = String.length s1 + String.length s2.
Proof. induction s1 as [|a s1 IH]; [done | rewrite append_cons; cbn; by rewrite IH]. Qed.


(** ** The summarizer and the context hook *)

(** C10: [useTranscription] throws an [Error] with the message
    "useTranscription must be used within a TranscriptionProvider" when the
    context reads [undefined], and otherwise returns the context value it
    read, unchanged. *)
Theorem useTranscription_outside_provider_throws :
  useTranscription None
  = Throw (mkError "Error" "useTranscription must be used within a TranscriptionProvider")
  ∧ ∀ c : Ctx.t, useTranscription (Some c) = Return c.
Proof. split; [reflexivity | intros c; reflexivity]. Qed.

(** C9: the result of the reference [generateSummary] does not depend on
    its argument: any two calls, on the empty string or not, settle to the
    same Summary Result, which holds the fixed narrative, five key points
    and no prescription. *)
Theorem generateSummary_ignores_transcript :
  ∀ t1 t2 : string,
    generateSummary t1 = generateSummary t2
    ∧ generateSummary t1 = Fulfilled mockSummary
    ∧ List.length (keyPoints mockSummary) = 5
    ∧ prescriptions mockSummary = [].
Proof. intros t1 t2. repeat split. Qed.

(** C3, as the claim has it, fails on the empty string: the promise of
    [generateSummary("")] is fulfilled with the mock summary and is not
    rejected, with an [EmptyInputError] or with anything else. *)
Lemma generateSummary_empty_is_fulfilled :
  generateSummary "" = Fulfilled mockSummary
  ∧ ¬ ∃ e : Error, generateSummary "" = Rejected e ∧ name e = "EmptyInputError".
Proof. split; [reflexivity | intros (e & H & _); discriminate H]. Qed.

(** C3, amended: [generateSummary] is fulfilled on every transcript, the
    empty one included, with a Summary Result whose [text] is the fixed,
    non-empty narrative; an empty transcript is stopped by the caller:
    [handleFinishSession] returns before the call when the title is empty or
    the transcript is blank, and otherwise awaits the call on the transcript
    of its render. *)
Theorem generateSummary_always_fulfilled :
  (∀ t : string,
     ∃ r : Summary, generateSummary t = Fulfilled r ∧ text r = text mockSummary ∧ text r ≠ "")
  ∧ ∀ (c : Closure) (w : World),
      (handleFinishSession_enter c w).1
      = if negb (truthy (sessionTitle (self c)))
           || bool_decide (String.length (trim (Ctx.transcript (ctx c))) = 0)
        then Returned
        else Awaiting (Ctx.transcript (ctx c)).
Proof.
  split.
  - intros t. exists mockSummary. by repeat split.
  - intros c w. unfold handleFinishSession_enter.
    destruct (truthy (sessionTitle (self c))); cbn; [| done].
    by case_bool_decide.
Qed.

(** ** Finishing a session *)

(** What a toast leaves alone. *)
Lemma toast_frame (t : Toast) (w : World) :
  let w' := exec (toast t) w in
  toasts w' = toasts w ++ [t]
  ∧ provider w' = provider w ∧ form w' = form w ∧ intervals w' = intervals w
  ∧ nextHandle w' = nextHandle w ∧ sessions w' = sessions w
  ∧ completions w' = completions w.
Proof. by repeat split. Qed.

(** The validation of [handleFinishSession]: with an empty title, or with a
    transcript that is blank, the handler shows the matching toast and
    returns. *)
Lemma handleFinishSession_enter_rejects (c : Closure) (w : World) :
  sessionTitle (self c) = "" ∨ String.length (trim (Ctx.transcript (ctx c))) = 0 →
  handleFinishSession_enter c w
  = (Returned,
     exec (toast (if truthy (sessionTitle (self c))
                  then emptyTranscriptToast else missingTitleToast)) w).
Proof.
  intros H. unfold handleFinishSession_enter.
  destruct (truthy (sessionTitle (self c))) eqn:Et; cbn; [| done].
  case_bool_decide as Hb; [done |].
  destruct H as [H | H]; [| done]. rewrite H in Et. discriminate.
Qed.

Lemma handleFinishSession_rejects
    (props : NewSessionFormProps) (c : Closure) (randomUUID now : string) (w : World) :
  sessionTitle (self c) = "" ∨ String.length (trim (Ctx.transcript (ctx c))) = 0 →
  handleFinishSession props c randomUUID now w
  = (tt, exec (toast (if truthy (sessionTitle (self c))
                      then emptyTranscriptToast else missingTitleToast)) w).
Proof.
  intros H. unfold handleFinishSession, bind.
  by rewrite (handleFinishSession_enter_rejects c w H).
Qed.

(** C5: finishing is rejected when the title is empty, and when the
    transcript is empty after trimming: [handleFinishSession] shows one
    destructive "Error" toast (the rejection the form reports, about the
    title in the first case and about the transcript otherwise) and returns;
    the transcription state (transcript, isTranscribing, the tracked
    handle) is as before, nothing is handed to [addSession], and the form,
    the scheduled callbacks and the completion signal are untouched. *)
Theorem finish_rejects_missing_title_or_blank_transcript
    (props : NewSessionFormProps) (c : Closure) (randomUUID now : string) (w : World) :
  sessionTitle (self c) = "" ∨ String.length (trim (Ctx.transcript (ctx c))) = 0 →
  let w' := exec (handleFinishSession props c randomUUID now) w in
  (∃ t : Toast,
     toasts w' = toasts w ++ [t]
     ∧ toast_title t = "Error" ∧ toast_variant t = Some "destructive"
     ∧ t = if truthy (sessionTitle (self c))
           then emptyTranscriptToast else missingTitleToast)
  ∧ provider w' = provider w
  ∧ sessions w' = sessions w
  ∧ form w' = form w
  ∧ intervals w' = intervals w
  ∧ completions w' = completions w.
Proof.
  intros H w'. subst w'. unfold exec.
  rewrite (handleFinishSession_rejects props c randomUUID now w H). cbn.
  split; [| by repeat split].
  eexists; split; [done |]. by destruct (truthy (sessionTitle (self c))).
Qed.

Lemma finish_rejects_missing_title_or_blank_transcript_witness :
  (sessionTitle (self (closure initial)) = ""
   ∧ toasts (exec (handleFinishSession (mkProps "p1") (closure initial) "id" "now") initial)
     = [missingTitleToast])
  ∧ (String.length
       (trim (Ctx.transcript
                (ctx (mkClosure (TranscriptionProvider (mkTranscription false "  " None))
                                (mkForm "Visit 1" false 0 None))))) = 0
     ∧ sessions (exec (handleFinishSession (mkProps "p1")
                         (mkClosure (TranscriptionProvider (mkTranscription false "  " None))
                                    (mkForm "Visit 1" false 0 None))
                         "id" "now") initial) = []).
Proof.
  split; (split; [reflexivity |]).
  - destruct (finish_rejects_missing_title_or_blank_transcript
                (mkProps "p1") (closure initial) "id" "now" initial
                (or_introl eq_refl)) as [(t & Ht & _ & _ & Heq) _].
    rewrite Ht, Heq. reflexivity.
  - exact (proj1 (proj2 (proj2 (finish_rejects_missing_title_or_blank_transcript
             (mkProps "p1")
             (mkClosure (TranscriptionProvider (mkTranscription false "  " None))
                        (mkForm "Visit 1" false 0 None))
             "id" "now" initial (or_intror eq_refl))))).
Defined.

(** C6: when the awaited [generateSummary] promise is rejected,
    [handleFinishSession] (resumed in whatever state the application is in
    by then) reports the error, with exactly one more toast, titled "Error",
    of the destructive variant and saying "Failed to generate summary.
    Please try again.", and clears [isGeneratingSummary]; it hands nothing
    to [addSession], does not
    reset the transcription (transcript, isTranscribing and the tracked
    handle stay, as do the scheduled callbacks), keeps the title and the
    duration, and does not signal completion. *)
Theorem finish_keeps_everything_when_summarizer_fails
    (props : NewSessionFormProps) (c : Closure) (randomUUID now : string)
    (e : Error) (w : World) :
  let w' := exec (handleFinishSession_resume props c randomUUID now (Rejected e)) w in
  toasts w' = toasts w ++ [summaryFailedToast]
  ∧ (∃ t : Toast,
       toasts w' = toasts w ++ [t]
       ∧ toast_title t = "Error"
       ∧ toast_description t = "Failed to generate summary. Please try again."
       ∧ toast_variant t = Some "destructive")
  ∧ sessions w' = sessions w
  ∧ provider w' = provider w
  ∧ sessionTitle (form w') = sessionTitle (form w)
  ∧ sessionDuration (form w') = sessionDuration (form w)
  ∧ timer (form w') = timer (form w)
  ∧ isGeneratingSummary (form w') = false
  ∧ intervals w' = intervals w
  ∧ completions w' = completions w.
Proof.
  cbv zeta. split; [reflexivity |]. split; [| by repeat split].
  exists summaryFailedToast. by repeat split.
Qed.

(** The same through the whole handler, for a summarizer that rejects the
    transcript of the render. *)
Lemma handleFinishSession_summarizer_fails
    (props : NewSessionFormProps) (c : Closure) (randomUUID now : string)
    (e : Error) (w : World) :
  truthy (sessionTitle (self c)) = true →
  String.length (trim (Ctx.transcript (ctx c))) ≠ 0 →
  Ctx.generateSummary (ctx c) (Ctx.transcript (ctx c)) = Rejected e →
  let w' := exec (handleFinishSession props c randomUUID now) w in
  toasts w' = toasts w ++ [summaryFailedToast]
  ∧ sessions w' = sessions w
  ∧ provider w' = provider w
  ∧ sessionTitle (form w') = sessionTitle (form w)
  ∧ completions w' = completions w.
Proof.
  intros Ht Hb Hr.
  assert (handleFinishSession props c randomUUID now w
          = handleFinishSession_resume props c randomUUID now (Rejected e)
              (exec (setIsGeneratingSummary true) w)) as Heq.
  { unfold handleFinishSession, handleFinishSession_enter, bind. rewrite Ht. cbn.
    case_bool_decide; [done |]. cbn. by rewrite Hr. }
  unfold exec. rewrite Heq. by repeat split.
Qed.

Lemma durationOrOne_max (d : nat) : durationOrOne d = Nat.max 1 d.
Proof. destruct d as [|[|d]]; reflexivity. Qed.

(** C7: on a successful finish (the provider's context, the form state
    [f] of the render that started the finish) exactly one record is handed
    to [addSession], and its duration is [max(1, sessionDuration)]: 1 when
    no minute was counted, the minutes counted when there are some, and so
    at least 1. *)
Theorem finish_records_duration_at_least_one
    (props : NewSessionFormProps) (r : TranscriptionState) (f : FormState)
    (randomUUID now : string) (s : Summary) (w : World) :
  let w' := exec (handleFinishSession_resume props
                    (mkClosure (TranscriptionProvider r) f)
                    randomUUID now (Fulfilled s)) w in
  ∃ record : Session.t,
    sessions w' = sessions w ++ [(patientId props, record)]
    ∧ Session.duration record = Nat.max 1 (sessionDuration f)
    ∧ (1 ≤ Session.duration record)%nat
    ∧ match sessionDuration f with
      | 0 => Session.duration record = 1
      | S _ => Session.duration record = sessionDuration f
      end.
Proof.
  exists (Session.mk randomUUID (sessionTitle f) now (durationOrOne (sessionDuration f))
                     (transcript r) (text s) (keyPoints s) (prescriptions s)).
  split.
  - destruct r as [a t [h|]]; reflexivity.
  - cbn. rewrite durationOrOne_max. split; [done |]. split; [lia |].
    destruct (sessionDuration f) as [|[|d]]; reflexivity.
Qed.

(** ** Resetting *)

(** C4, as the claim has it, fails on the duration: after one counted
    minute, [resetTranscription] (the clear button) leaves the session
    idle with an empty transcript, and [sessionDuration] still 1. *)
Lemma reset_keeps_duration :
  let w := run [HandleStartTranscription; Fire 2 AtRender] initial in
  let w' := dispatch ResetTranscription w in
  sessionDuration (form w) = 1
  ∧ sessionDuration (form w') = 1
  ∧ ¬ (isTranscribing (provider w') = false
       ∧ transcript (provider w') = ""
       ∧ sessionDuration (form w') = 0).
Proof.
  cbv zeta. split; [reflexivity |]. split; [reflexivity |].
  intros (_ & _ & H). vm_compute in H. discriminate H.
Qed.

(** C4, amended: [resetTranscription], whatever render created it and
    whatever state it runs in, yields [isTranscribing = false] and
    [transcript = ""] and leaves the form state, [sessionDuration]
    included, as it was; the duration is put back to 0 by the successful
    finish, which also resets the transcription. *)
Theorem reset_clears_transcript_and_keeps_duration :
  (∀ (r : TranscriptionState) (w : World),
     let w' := exec (resetTranscription r) w in
     isTranscribing (provider w') = false
     ∧ transcript (provider w') = ""
     ∧ form w' = form w)
  ∧ (∀ w : World,
       let w' := dispatch ResetTranscription w in
       isTranscribing (provider w') = false
       ∧ transcript (provider w') = ""
       ∧ transcriptionInterval (provider w') = None
       ∧ sessionDuration (form w') = sessionDuration (form w))
  ∧ (∀ (props : NewSessionFormProps) (r : TranscriptionState) (f : FormState)
       (randomUUID now : string) (s : Summary) (w : World),
       let w' := exec (handleFinishSession_resume props
                         (mkClosure (TranscriptionProvider r) f)
                         randomUUID now (Fulfilled s)) w in
       isTranscribing (provider w') = false
       ∧ transcript (provider w') = ""
       ∧ sessionDuration (form w') = 0).
Proof.
  split; [| split].
  - intros [a t [h|]] w; by repeat split.
  - intros [[a t [h|]] [ti g d tm] m n ts ss cs]; cbv zeta;
      unfold dispatch, exec, timerEffectCleanup; cbn;
      (case_decide; [| done]); by repeat split.
  - intros props [a t [h|]] f u now s w; by repeat split.
Qed.

(** ** What each event does *)

Lemma lookup_cleared_Some (o : option handle) (m : gmap nat Callback) (h : handle)
    (c : Callback) :
  cleared o m !! h = Some c ↔ m !! h = Some c ∧ o ≠ Some h.
Proof.
  destruct o as [h'|]; cbn.
  - rewrite lookup_delete_Some. split.
    + intros [Hne Hm]. split; [done | congruence].
    + intros [Hm Hne]. split; [congruence | done].
  - split; [by intros Hm | by intros [Hm _]].
Qed.

Lemma dispatch_StartTranscription (w : World) :
  dispatch StartTranscription w
  = mkWorld (mkTranscription true (transcript (provider w)) (Some (nextHandle w)))
            (form w)
            (<[nextHandle w := FragmentSource 0]> (intervals w))
            (S (nextHandle w)) (toasts w) (sessions w) (completions w).
Proof. world w. dispatch_cbn. by case_decide. Qed.

Lemma dispatch_StopTranscription (w : World) :
  dispatch StopTranscription w
  = mkWorld (mkTranscription false (transcript (provider w)) None)
            (form w)
            (cleared (transcriptionInterval (provider w)) (intervals w))
            (nextHandle w) (toasts w) (sessions w) (completions w).
Proof. world w. destruct i; dispatch_cbn; by case_decide. Qed.

Lemma dispatch_ResetTranscription (w : World) :
  dispatch ResetTranscription w
  = mkWorld (mkTranscription false "" None)
            (form w)
            (cleared (transcriptionInterval (provider w)) (intervals w))
            (nextHandle w) (toasts w) (sessions w) (completions w).
Proof. world w. destruct i; dispatch_cbn; by case_decide. Qed.

Lemma dispatch_HandleStartTranscription (w : World) :
  dispatch HandleStartTranscription w
  = let n := nextHandle w in
    let scheduled := <[S n := DurationCounter]> (<[n := FragmentSource 0]> (intervals w)) in
    mkWorld (mkTranscription true (transcript (provider w)) (Some n))
            (mkForm (sessionTitle (form w)) (isGeneratingSummary (form w))
                    (sessionDuration (form w)) (Some (S n)))
            (if decide (Some (S n) = timer (form w)) then scheduled
             else cleared (timer (form w)) scheduled)
            (S (S n))
            (toasts w ++ [mkToast "Transcription Started"
                            "The session is now being recorded and transcribed." None])
            (sessions w) (completions w).
Proof. world w. dispatch_cbn. case_decide; [done |]. by destruct tm. Qed.

Lemma dispatch_HandleStopTranscription (w : World) :
  dispatch HandleStopTranscription w
  = mkWorld (mkTranscription false (transcript (provider w)) None)
            (mkForm (sessionTitle (form w)) (isGeneratingSummary (form w))
                    (sessionDuration (form w)) None)
            (cleared (timer (form w))
               (cleared (timer (form w))
                  (cleared (transcriptionInterval (provider w)) (intervals w))))
            (nextHandle w)
            (toasts w ++ [mkToast "Transcription Stopped"
                            "The session recording has been paused." None])
            (sessions w) (completions w).
Proof. world w. destruct i, tm; dispatch_cbn; try case_decide; done. Qed.

Lemma dispatch_Fire (h : handle) (u : UpdaterRun) (w : World) :
  dispatch (Fire h u) w
  = match intervals w !! h with
    | None => w
    | Some DurationCounter =>
        mkWorld (provider w)
                (mkForm (sessionTitle (form w)) (isGeneratingSummary (form w))
                        (sessionDuration (form w) + 1) (timer (form w)))
                (intervals w) (nextHandle w) (toasts w) (sessions w) (completions w)
    | Some (FragmentSource index) =>
        if bool_decide (index < List.length mockPhrases) then
          mkWorld (mkTranscription (isTranscribing (provider w))
                                   (appendPhrase (readIndex u index)
                                                 (transcript (provider w)))
                                   (transcriptionInterval (provider w)))
                  (form w)
                  (<[h := FragmentSource (S index)]> (intervals w))
                  (nextHandle w) (toasts w) (sessions w) (completions w)
        else
          mkWorld (provider w) (form w) (delete h (intervals w))
                  (nextHandle w) (toasts w) (sessions w) (completions w)
    end.
Proof.
  world w. dispatch_cbn. destruct (m !! h) as [[index|]|]; cbn.
  - case_bool_decide; cbn; by case_decide.
  - by case_decide.
  - by case_decide.
Qed.

(** ** Invariants of the executions *)

Lemma handlesFresh_dispatch (e : Event) (w : World) :
  handlesFresh w → handlesFresh (dispatch e w).
Proof.
  intros (Hi & Ht & Hp). destruct e.
  - rewrite dispatch_StartTranscription. repeat split; cbn.
    + intros h c [[-> _] | [_ H]]%lookup_insert_Some; [lia |]. apply Hi in H. lia.
    + intros h H. apply Ht in H. lia.
    + intros h [= <-]. lia.
  - rewrite dispatch_StopTranscription. repeat split; cbn; [| done | done].
    intros h c [H _]%lookup_cleared_Some. eauto.
  - rewrite dispatch_ResetTranscription. repeat split; cbn; [| done | done].
    intros h c [H _]%lookup_cleared_Some. eauto.
  - rewrite dispatch_HandleStartTranscription. cbv zeta. repeat split; cbn.
    + assert (∀ h c, <[S (nextHandle w) := DurationCounter]>
                       (<[nextHandle w := FragmentSource 0]> (intervals w)) !! h = Some c
                     → h < S (S (nextHandle w))) as Hs.
      { intros h c [[-> _] | [_ [[-> _] | [_ H]]%lookup_insert_Some]]%lookup_insert_Some;
          [lia | lia |]. apply Hi in H. lia. }
      intros h c. case_decide as Hd; [by apply Hs |].
      intros [Hm _]%lookup_cleared_Some. by eapply Hs.
    + intros h [= <-]. lia.
    + intros h [= <-]. lia.
  - rewrite dispatch_HandleStopTranscription. repeat split; cbn; [| done | done].
    intros h c [[[H _]%lookup_cleared_Some _]%lookup_cleared_Some _]%lookup_cleared_Some.
    eauto.
  - rewrite dispatch_Fire. destruct (intervals w !! h) as [[index|]|] eqn:E; [| done | done].
    case_bool_decide as Hlt; repeat split; cbn; try done.
    + intros h' c [[-> _] | [_ Hm]]%lookup_insert_Some; eauto.
    + intros h' c [_ Hm]%lookup_delete_Some. eauto.
Qed.

Lemma timerIsNoSource_dispatch (e : Event) (w : World) :
  handlesFresh w → timerIsNoSource w → timerIsNoSource (dispatch e w).
Proof.
  intros (Hi & Ht & Hp) Hn. unfold timerIsNoSource in *. destruct e.
  - rewrite dispatch_StartTranscription; cbn. intros h j Htm.
    rewrite lookup_insert_ne; [by apply Hn |]. apply Ht in Htm. lia.
  - rewrite dispatch_StopTranscription; cbn.
    intros h j Htm [Hm _]%lookup_cleared_Some. by eapply Hn.
  - rewrite dispatch_ResetTranscription; cbn.
    intros h j Htm [Hm _]%lookup_cleared_Some. by eapply Hn.
  - rewrite dispatch_HandleStartTranscription; cbn. intros h j [= <-].
    assert (<[S (nextHandle w) := DurationCounter]>
              (<[nextHandle w := FragmentSource 0]> (intervals w)) !! S (nextHandle w)
            = Some DurationCounter) as Hs by apply lookup_insert_eq.
    case_decide as Hd; [congruence |].
    intros [Hm _]%lookup_cleared_Some. congruence.
  - rewrite dispatch_HandleStopTranscription; cbn. by intros h j [=].
  - rewrite dispatch_Fire. destruct (intervals w !! h) as [[index|]|] eqn:E; [| done | done].
    case_bool_decide as Hlt; cbn.
    + intros h' j Htm. rewrite lookup_insert_ne; [by apply Hn |].
      intros ->. by eapply Hn.
    + intros h' j Htm [_ Hm]%lookup_delete_Some. by eapply Hn.
Qed.

Lemma countersTracked_dispatch (e : Event) (w : World) :
  countersTracked w → countersTracked (dispatch e w).
Proof.
  intros Hc. unfold countersTracked in *. destruct e.
  - rewrite dispatch_StartTranscription; cbn.
    intros h [[_ [=]] | [_ Hm]]%lookup_insert_Some. by apply Hc.
  - rewrite dispatch_StopTranscription; cbn.
    intros h [Hm _]%lookup_cleared_Some. by apply Hc.
  - rewrite dispatch_ResetTranscription; cbn.
    intros h [Hm _]%lookup_cleared_Some. by apply Hc.
  - rewrite dispatch_HandleStartTranscription; cbn. intros h. case_decide as Hd.
    + intros [[<- _] | [_ [[_ [=]] | [_ Hm]]%lookup_insert_Some]]%lookup_insert_Some;
        [done |]. apply Hc in Hm. congruence.
    + intros [[[<- _] | [_ [[_ [=]] | [_ Hm]]%lookup_insert_Some]]%lookup_insert_Some Hne]
        %lookup_cleared_Some; [done |]. apply Hc in Hm. congruence.
  - rewrite dispatch_HandleStopTranscription; cbn.
    intros h [[[Hm _]%lookup_cleared_Some _]%lookup_cleared_Some Hne]%lookup_cleared_Some.
    apply Hc in Hm. congruence.
  - rewrite dispatch_Fire. destruct (intervals w !! h) as [[index|]|] eqn:E; [| done | done].
    case_bool_decide as Hlt; cbn.
    + intros h' [[_ [=]] | [_ Hm]]%lookup_insert_Some. by apply Hc.
    + intros h' [_ Hm]%lookup_delete_Some. by apply Hc.
Qed.

Lemma wellFormed_initial : wellFormed initial.
Proof.
  repeat split; by cbn.
Qed.

Lemma wellFormed_dispatch (e : Event) (w : World) :
  wellFormed w → wellFormed (dispatch e w).
Proof.
  intros (Hf & Hn & Hc). split; [| split].
  - by apply handlesFresh_dispatch.
  - by apply timerIsNoSource_dispatch.
  - by apply countersTracked_dispatch.
Qed.

Lemma run_cons (e : Event) (tr : list Event) (w : World) :
  run (e :: tr) w = run tr (dispatch e w).
Proof. reflexivity. Qed.

Lemma run_app (tr1 tr2 : list Event) (w : World) :
  run (tr1 ++ tr2) w = run tr2 (run tr1 w).
Proof. apply fold_left_app. Qed.

Lemma wellFormed_run (tr : list Event) (w : World) :
  wellFormed w → wellFormed (run tr w).
Proof.
  revert w. induction tr as [|e tr IH]; intros w Hw; [done |].
  cbn. apply IH. by apply wellFormed_dispatch.
Qed.

(** *** Fragment sources under starts from idle *)








(** ** The transcription session *)




(** C2, as the claim has it, fails: a [startTranscription] on an active
    session changes the state, and two fragment sources are scheduled
    afterwards; pressed twice, the form's start handler does the same (the
    two sources under the handles 1 and 3), with one duration counter. *)
Lemma start_while_active_is_not_a_noop :
  let w := dispatch StartTranscription initial in
  let w' := dispatch StartTranscription w in
  let v := run [HandleStartTranscription; HandleStartTranscription] initial in
  isTranscribing (provider w) = true
  ∧ w' ≠ w
  ∧ fragmentSources w = [1]
  ∧ fragmentSources w' = [2; 1]
  ∧ fragmentSources v = [3; 1]
  ∧ durationCounters v = [4].
Proof.
  cbv zeta. split; [reflexivity |]. split; [| by repeat split].
  intros H. apply (f_equal nextHandle) in H. vm_compute in H. discriminate H.
Qed.

(** C2, amended: [startTranscription] has no guard (the form renders its
    start button only while the session is idle).  In every state an
    execution reaches, active ones included, the call keeps
    [isTranscribing = true] and the transcript and leaves the form alone,
    but it schedules one more fragment source, under a handle that was not
    scheduled, next to all that were, and tracks the new handle instead of
    the old one.  The form's start handler does the same to the sources
    and leaves exactly one duration counter scheduled, the new one: the one
    tracked before is cancelled when [timer] changes, and the counted
    minutes stay. *)
Theorem start_while_active_adds_source_keeps_one_counter (tr : list Event) :
  let w := run tr initial in
  let w' := dispatch StartTranscription w in
  let w'' := dispatch HandleStartTranscription w in
  startOffered (closure w) = negb (isTranscribing (provider w))
  ∧ isTranscribing (provider w') = true
  ∧ transcript (provider w') = transcript (provider w)
  ∧ form w' = form w
  ∧ intervals w !! nextHandle w = None
  ∧ intervals w' = <[nextHandle w := FragmentSource 0]> (intervals w)
  ∧ transcriptionInterval (provider w') = Some (nextHandle w)
  ∧ isTranscribing (provider w'') = true
  ∧ transcript (provider w'') = transcript (provider w)
  ∧ intervals w'' !! nextHandle w = Some (FragmentSource 0)
  ∧ (∀ h i, intervals w !! h = Some (FragmentSource i) →
            intervals w'' !! h = Some (FragmentSource i))
  ∧ (∀ h, intervals w'' !! h = Some DurationCounter ↔ h = S (nextHandle w))
  ∧ sessionDuration (form w'') = sessionDuration (form w).
Proof.
  intros w w' w''.
  pose proof (wellFormed_run tr initial wellFormed_initial) as Hw. fold w in Hw.
  pose proof (wellFormed_dispatch HandleStartTranscription w Hw) as (_ & _ & Hc'').
  fold w'' in Hc''. destruct Hw as ((Hi & Ht & Hp) & Hn & Hc).
  assert (intervals w !! nextHandle w = None) as Hfresh.
  { destruct (intervals w !! nextHandle w) as [c|] eqn:E; [| done].
    apply Hi in E. lia. }
  subst w' w''. rewrite dispatch_StartTranscription in *.
  rewrite dispatch_HandleStartTranscription in *. cbn in *.
  set (n := nextHandle w) in *.
  set (scheduled := <[S n := DurationCounter]> (<[n := FragmentSource 0]> (intervals w)))
    in *.
  assert (scheduled !! n = Some (FragmentSource 0)) as Hsn.
  { subst scheduled. rewrite lookup_insert_ne by lia. apply lookup_insert_eq. }
  assert (timer (form w) ≠ Some n) as Htn.
  { intros Htm. apply Ht in Htm. lia. }
  do 9 (split; [done |]).
  split; [| split; [| split; [| done]]].
  - case_decide as Hd; [done |]. by apply lookup_cleared_Some.
  - intros h j Hm. assert (h < n) as Hlt by (by eapply Hi).
    assert (scheduled !! h = Some (FragmentSource j)) as Hsh.
    { subst scheduled. by rewrite !lookup_insert_ne by lia. }
    case_decide as Hd; [done |]. apply lookup_cleared_Some. split; [done |].
    intros Htm. by eapply Hn.
  - intros h. split.
    + intros Hm. apply Hc'' in Hm. cbn in Hm. congruence.
    + intros ->. assert (scheduled !! S n = Some DurationCounter) as Hs
        by apply lookup_insert_eq.
      case_decide as Hd; [done |]. apply lookup_cleared_Some. split; [done | congruence].
Qed.

Lemma start_while_active_adds_source_keeps_one_counter_witness :
  let w := run [HandleStartTranscription; Fire 1 AtRender; Fire 2 AtRender] initial in
  isTranscribing (provider w) = true
  ∧ intervals w !! 1 = Some (FragmentSource 1)
  ∧ intervals (dispatch HandleStartTranscription w) !! 1 = Some (FragmentSource 1)
  ∧ intervals (dispatch HandleStartTranscription w) !! 3 = Some (FragmentSource 0)
  ∧ intervals (dispatch HandleStartTranscription w) !! 4 = Some DurationCounter.
Proof.
  cbv zeta. split; [reflexivity |]. split; [reflexivity |].
  pose proof (start_while_active_adds_source_keeps_one_counter
                [HandleStartTranscription; Fire 1 AtRender; Fire 2 AtRender])
    as (_ & _ & _ & _ & _ & _ & _ & _ & _ & Hnew & Hold & Hcounter & _).
  split; [exact (Hold 1 1 eq_refl) |]. split; [exact Hnew |].
  exact (proj2 (Hcounter 4) eq_refl).
Defined.

(** *** The transcript only grows at its end *)






(** ** Scenarios *)

(** Start, two ticks (their updaters run at the next render, so they read
    the second and the third phrase), pause, a title, finish: the transcript
    is the two fragments separated by a blank line; the record carries the
    title, the duration 1 (no minute was counted), that transcript and the
    summarizer's output; the session is reset and completion is signalled
    once. *)
Example record_two_fragments_and_finish :
  let w := exec (setSessionTitle "Visit 1")
             (run [HandleStartTranscription; Fire 1 AtRender; Fire 1 AtRender; HandleStopTranscription]
                  initial) in
  let w' := exec (handleFinishSession (mkProps "p1") (closure w) "uuid" "now") w in
  transcript (provider w)
  = "Patient: I've been having some trouble sleeping lately." +:+ LF +:+ LF
    +:+ "Doctor: I'm sorry to hear that. How long has this been going on?"
  ∧ finishEnabled (closure w) = true
  ∧ sessions w'
    = [("p1", Session.mk "uuid" "Visit 1" "now" 1 (transcript (provider w))
                         (text mockSummary) (keyPoints mockSummary) [])]
  ∧ provider w' = mkTranscription false "" None
  ∧ form w' = mkForm "" false 0 None
  ∧ intervals w' = ∅
  ∧ completions w' = 1.
Proof. cbv zeta. by repeat split. Qed.

(** The handlers that [handleFinishSession] calls after its [await] are
    those of the render that started it.  Finish pressed while recording,
    then pause and start again before the summary arrives: the reset at the
    end clears the handle of the first source, which is cancelled already,
    and forgets the second one, whose next tick appends to the transcript
    of the idle session.  The executions of the theorem on stops above do
    not contain a finish. *)
Example finish_resumes_with_the_handlers_of_its_render :
  let w1 := exec (setSessionTitle "Visit 1")
              (run [HandleStartTranscription; Fire 1 AtRender] initial) in
  let c := closure w1 in
  let w2 := exec (handleFinishSession_enter c) w1 in
  let w3 := run [HandleStopTranscription; HandleStartTranscription] w2 in
  let w4 := exec (handleFinishSession_resume (mkProps "p1") c "uuid" "now"
                    (Ctx.generateSummary (ctx c) (Ctx.transcript (ctx c)))) w3 in
  let w5 := dispatch (Fire 3 AtRender) w4 in
  finishEnabled c = true
  ∧ stopOffered (closure w2) = true
  ∧ startOffered (closure (dispatch HandleStopTranscription w2)) = true
  ∧ provider w4 = mkTranscription false "" None
  ∧ fragmentSources w4 = [3]
  ∧ isTranscribing (provider w5) = false
  ∧ transcript (provider w5) = "Patient: I've been having some trouble sleeping lately.".
Proof. cbv zeta. by repeat split. Qed.

(** ** Utilities *)

Lemma length_substring0 (n : nat) (s : string) :
  String.length (substring 0 n s) = Nat.min n (String.length s).
Proof.
  revert n. induction s as [|a s IH]; intros [|n]; cbn; try done. by rewrite IH.
Qed.

Lemma substring0_all (n : nat) (s : string) :
  (String.length s ≤ n)%nat → substring 0 n s = s.
Proof.
  revert n. induction s as [|a s IH]; intros [|n] Hn; cbn in *; try done; [lia |].
  rewrite IH; [done | lia].
Qed.

Lemma substring0_append (n : nat) (s t : string) :
  (n ≤ String.length s)%nat → substring 0 n (s +:+ t) = substring 0 n s.
Proof.
  revert n. induction s as [|a s IH]; intros [|n] Hn; cbn in *; try done.
  - by destruct t.
  - lia.
  - rewrite append_cons. cbn. rewrite IH; [done | lia].
Qed.

Lemma substring0_prefix (n : nat) (s : string) :
  ∃ rest, s = substring 0 n s +:+ rest.
Proof.
  revert n. induction s as [|a s IH]; intros [|n]; cbn.
  - by exists "".
  - by exists "".
  - by exists (String a s).
  - destruct (IH n) as (rest & Hr). exists rest. by rewrite append_cons, <- Hr.
Qed.

(** A text that does not fit is cut to exactly [maxLength] units of its
    beginning and gets three dots, so the result is three units longer
    than [maxLength] (and longer than the text itself when the text exceeds
    [maxLength] by less than three); a text that fits is returned as it
    is. *)
Theorem truncateText_keeps_maxLength_units (text : string) (maxLength : Z) :
  (0 ≤ maxLength)%Z →
  let len := Z.of_nat (String.length text) in
  let result := truncateText text maxLength in
  ((len ≤ maxLength)%Z → result = text)
  ∧ ((maxLength < len)%Z →
       (∃ kept rest, result = kept +:+ "..." ∧ text = kept +:+ rest
                     ∧ Z.of_nat (String.length kept) = maxLength)
       ∧ Z.of_nat (String.length result) = (maxLength + 3)%Z).
Proof.
  intros Hm len result. subst len result. unfold truncateText. split.
  - intros Hfit. by rewrite (proj2 (Z.leb_le _ _) Hfit).
  - intros Hcut. rewrite (proj2 (Z.leb_gt _ _) Hcut). unfold slice0.
    rewrite (proj2 (Z.ltb_ge _ _) Hm). rewrite Z.min_l by lia.
    split.
    + destruct (substring0_prefix (Z.to_nat maxLength) text) as (rest & Hrest).
      exists (substring 0 (Z.to_nat maxLength) text), rest.
      split; [done |]. split; [done |]. rewrite length_substring0. lia.
    + rewrite length_append, length_substring0. cbn. lia.
Qed.

Lemma truncateText_keeps_maxLength_units_witness :
  (0 ≤ 3)%Z
  ∧ Z.of_nat (String.length (truncateText "abcd" 3)) = (3 + 3)%Z
  ∧ truncateText "abc" 3 = "abc".
Proof.
  split; [lia |].
  pose proof (truncateText_keeps_maxLength_units "abcd" 3 ltac:(lia)) as [_ Hcut].
  pose proof (truncateText_keeps_maxLength_units "abc" 3 ltac:(lia)) as [Hfit _].
  split; [exact (proj2 (Hcut ltac:(cbn; lia))) | exact (Hfit ltac:(cbn; lia))].
Defined.

(** Truncating twice with the same non-negative [maxLength] is truncating
    once: the dots of the first cut are replaced, not doubled. *)
Theorem truncateText_idempotent (text : string) (maxLength : Z) :
  (0 ≤ maxLength)%Z →
  truncateText (truncateText text maxLength) maxLength = truncateText text maxLength.
Proof.
  intros Hm.
  destruct (Z.leb_spec (Z.of_nat (String.length text)) maxLength) as [Hfit | Hcut].
  - unfold truncateText. by rewrite !(proj2 (Z.leb_le _ _) Hfit).
  - set (kept := substring 0 (Z.to_nat maxLength) text).
    assert (String.length kept = Z.to_nat maxLength) as Hk.
    { subst kept. rewrite length_substring0. lia. }
    assert (truncateText text maxLength = kept +:+ "...") as ->.
    { unfold truncateText, slice0. rewrite (proj2 (Z.leb_gt _ _) Hcut).
      rewrite (proj2 (Z.ltb_ge _ _) Hm). by rewrite Z.min_l by lia. }
    unfold truncateText, slice0. rewrite length_append, Hk.
    rewrite (proj2 (Z.leb_gt _ _)) by (cbn; lia).
    rewrite (proj2 (Z.ltb_ge _ _) Hm). rewrite Z.min_l by (cbn; lia).
    rewrite substring0_append by lia. by rewrite substring0_all by lia.
Qed.

Lemma truncateText_idempotent_witness :
  (0 ≤ 5)%Z
  ∧ truncateText (truncateText "Patient reported" 5) 5 = truncateText "Patient reported" 5.
Proof. split; [lia | apply truncateText_idempotent; lia]. Defined.

(** With a negative [maxLength] the text is always cut, however short it
    is: [slice] counts a negative end from the end of the string, so the
    last [-maxLength] units are dropped (all of them when there are fewer)
    and the dots are appended, also to the empty text. *)
Theorem truncateText_negative_maxLength (text : string) (maxLength : Z) :
  (maxLength < 0)%Z →
  let len := Z.of_nat (String.length text) in
  ∃ kept rest,
    truncateText text maxLength = kept +:+ "..."
    ∧ text = kept +:+ rest
    ∧ Z.of_nat (String.length kept) = Z.max (len + maxLength) 0
    ∧ Z.of_nat (String.length rest) = Z.min (- maxLength) len.
Proof.
  intros Hm len. subst len. unfold truncateText, slice0.
  rewrite (proj2 (Z.leb_gt _ _)) by lia. rewrite (proj2 (Z.ltb_lt _ _) Hm).
  set (n := Z.to_nat (Z.max (Z.of_nat (String.length text) + maxLength) 0)).
  destruct (substring0_prefix n text) as (rest & Hrest).
  exists (substring 0 n text), rest.
  assert (String.length (substring 0 n text) = n) as Hk.
  { rewrite length_substring0. subst n. lia. }
  split; [done |]. split; [done |]. split; [rewrite Hk; subst n; lia |].
  apply (f_equal String.length) in Hrest. rewrite length_append, Hk in Hrest.
  subst n. lia.
Qed.

Lemma truncateText_negative_maxLength_witness :
  (-1 < 0)%Z ∧ ∃ kept rest, truncateText "" (-1) = kept +:+ "..." ∧ "" = kept +:+ rest.
Proof.
  split; [lia |].
  destruct (truncateText_negative_maxLength "" (-1) ltac:(lia)) as (k & r & H1 & H2 & _).
  by exists k, r.
Defined.

Lemma splitSpace_nonempty (s : string) : splitSpace s ≠ [].
Proof.
  induction s as [|a s IH]; cbn; [done |].
  destruct (Ascii.eqb a " "); [done |]. by destruct (splitSpace s).
Qed.

Lemma splitSpace_append_space (a b : string) :
  splitSpace (a +:+ " " +:+ b) = splitSpace a ++ splitSpace b.
Proof.
  induction a as [|c a IH]; [done |].
  rewrite append_cons. cbn. rewrite IH. destruct (Ascii.eqb c " "); [done |].
  pose proof (splitSpace_nonempty a). by destruct (splitSpace a).
Qed.

Lemma splitSpace_word (s : string) : hasSpace s = false → splitSpace s = [s].
Proof.
  induction s as [|c s IH]; cbn; [done |].
  destruct (Ascii.eqb c " "); cbn; [done |]. intros Hs. by rewrite IH.
Qed.

Lemma joinUnits_app (l1 l2 : list (option ascii)) :
  joinUnits (l1 ++ l2) = joinUnits l1 +:+ joinUnits l2.
Proof.
  induction l1 as [|[c|] l1 IH]; [done | | done].
  change (String c (joinUnits (l1 ++ l2)) = String c (joinUnits l1) +:+ joinUnits l2).
  by rewrite append_cons, IH.
Qed.

Lemma toUpperCase_append (s t : string) :
  toUpperCase (s +:+ t) = toUpperCase s +:+ toUpperCase t.
Proof.
  induction s as [|c s IH]; [done |]. rewrite append_cons. cbn.
  by rewrite append_cons, IH.
Qed.

(** The initials of two names joined by a space are the initials of the
    first followed by those of the second, and the empty name has none: so
    leading, trailing and doubled spaces add nothing. *)
Theorem getInitials_of_names_joined_by_space (a b : string) :
  isAsciiString a = true → isAsciiString b = true →
  getInitials "" = ""
  ∧ getInitials (a +:+ " " +:+ b) = getInitials a +:+ getInitials b
  ∧ getInitials (" " +:+ b) = getInitials b
  ∧ getInitials (a +:+ " ") = getInitials a.
Proof.
  intros _ _.
  assert (∀ x y, getInitials (x +:+ " " +:+ y) = getInitials x +:+ getInitials y) as Happ.
  { intros x y. unfold getInitials.
    by rewrite splitSpace_append_space, map_app, joinUnits_app, toUpperCase_append. }
  split; [done |]. split; [apply Happ |]. split.
  - apply (Happ "" b).
  - rewrite <- (append_nil_r (a +:+ " ")), append_assoc, Happ. apply append_nil_r.
Qed.

Lemma getInitials_of_names_joined_by_space_witness :
  isAsciiString "john" = true ∧ isAsciiString " doe" = true
  ∧ getInitials ("john" +:+ " " +:+ " doe") = getInitials "john" +:+ getInitials " doe".
Proof.
  split; [reflexivity |]. split; [reflexivity |].
  exact (proj1 (proj2 (getInitials_of_names_joined_by_space "john" " doe"
                         eq_refl eq_refl))).
Defined.

(** The initials of a single word, a non-empty name without a space, are
    its first unit in upper case. *)
Theorem getInitials_of_one_word (c : ascii) (rest : string) :
  isAsciiString (String c rest) = true →
  hasSpace (String c rest) = false →
  getInitials (String c rest) = String (upperUnit c) "".
Proof.
  intros _ Hs. unfold getInitials. by rewrite (splitSpace_word _ Hs).
Qed.

Lemma getInitials_of_one_word_witness :
  isAsciiString "doe" = true ∧ hasSpace "doe" = false ∧ getInitials "doe" = "D".
Proof.
  split; [reflexivity |]. split; [reflexivity |].
  exact (getInitials_of_one_word "d" "oe" eq_refl eq_refl).
Defined.

(** [calculateAge] counts the completed years: the birthday of that age is
    today or earlier in the calendar and the next one is still to come, and
    no other number has that property.  A date of birth after today gives a
    negative age. *)
Theorem calculateAge_counts_completed_years (today dateOfBirth : JsDate) (age : Z) :
  (dateLe (getFullYear dateOfBirth + age) (getMonth dateOfBirth) (getDate dateOfBirth)
          (getFullYear today) (getMonth today) (getDate today)
   ∧ dateLt (getFullYear today) (getMonth today) (getDate today)
            (getFullYear dateOfBirth + age + 1) (getMonth dateOfBirth)
            (getDate dateOfBirth))
  ↔ age = calculateAge today dateOfBirth.
Proof.
  destruct today as [ty tm td], dateOfBirth as [by_ bm bd].
  unfold calculateAge, dateLe, dateLt; cbn.
  destruct (Z.ltb_spec (tm - bm) 0); cbn; [lia |].
  destruct (Z.eqb_spec (tm - bm) 0); cbn; [| lia].
  destruct (Z.ltb_spec td bd); lia.
Qed.

(** ** The script *)

Lemma truthy_append (s t : string) : truthy (s +:+ t) = truthy s || truthy t.
Proof. by destruct s. Qed.

Lemma truthy_joinWith (sep : string) (l : list string) :
  Forall (λ p, p ≠ "") l → l ≠ [] → truthy (joinWith sep l) = true.
Proof.
  intros Hl Hne. destruct l as [|p l]; [done |]. apply Forall_cons in Hl as [Hp _].
  cbn. destruct l; [by destruct p |]. rewrite truthy_append. by destruct p.
Qed.

Lemma joinWith_snoc (sep : string) (l : list string) (p : string) :
  Forall (λ q, q ≠ "") l →
  (joinWith sep l +:+ (if truthy (joinWith sep l) then sep else "")) +:+ p
  = joinWith sep (l ++ [p]).
Proof.
  induction l as [|q l IH]; intros Hl; [done |].
  apply Forall_cons in Hl as [Hq Hl]. rewrite truthy_joinWith; [| by constructor | done].
  destruct l as [|q' l].
  - cbn. by rewrite append_assoc.
  - specialize (IH Hl). rewrite truthy_joinWith in IH; [| done | done].
    change (joinWith sep (q :: q' :: l)) with (q +:+ sep +:+ joinWith sep (q' :: l)).
    change (joinWith sep ((q :: q' :: l) ++ [p]))
      with (q +:+ sep +:+ joinWith sep ((q' :: l) ++ [p])).
    rewrite <- IH. by rewrite !append_assoc.
Qed.

Lemma mockPhrases_nonempty : Forall (λ p, p ≠ "") mockPhrases.
Proof. unfold mockPhrases. repeat constructor; discriminate. Qed.

Lemma fragment_begins_with_ink (p : string) :
  isFragment p → ∃ a p', p = String a p' ∧ isWhiteSpace a = false.
Proof.
  intros [Hp | ->]; [| by eexists _, _].
  revert p Hp. apply Forall_forall. unfold mockPhrases.
  repeat constructor; by eexists _, _.
Qed.

Lemma phrases_nonempty (l : list string) :
  Forall isFragment l → Forall (λ p, p ≠ "") l.
Proof.
  intros Hl. eapply Forall_impl; [exact Hl |]. intros p Hp.
  by destruct (fragment_begins_with_ink p Hp) as (a & p' & -> & _).
Qed.

Lemma phraseAt_in_script (index : nat) :
  index < List.length mockPhrases → phraseAt index ∈ mockPhrases.
Proof.
  intros Hlt. unfold phraseAt.
  destruct (mockPhrases !! index) as [p|] eqn:E.
  - cbn. by eapply list_elem_of_lookup_2.
  - apply lookup_ge_None in E. lia.
Qed.

Lemma phraseAt_past_the_end (index : nat) :
  (List.length mockPhrases ≤ index)%nat → phraseAt index = "undefined".
Proof. intros Hge. unfold phraseAt. by rewrite (proj2 (lookup_ge_None _ _) Hge). Qed.

Lemma phraseAt_is_fragment (index : nat) : isFragment (phraseAt index).
Proof.
  destruct (decide (index < List.length mockPhrases)) as [Hlt | Hge].
  - left. by apply phraseAt_in_script.
  - right. apply phraseAt_past_the_end. lia.
Qed.

(** A text that begins with a unit that is not white space is not blank. *)
Lemma trim_not_blank (a : ascii) (s : string) :
  isWhiteSpace a = false → String.length (trim (String a s)) ≠ 0.
Proof.
  intros Ha. unfold trim. cbn [trimStart]. rewrite Ha. cbn [trimEnd].
  destruct (trimEnd s); [by rewrite Ha | done].
Qed.

Lemma joinWith_not_blank (l : list string) :
  Forall isFragment l → l ≠ [] →
  String.length (trim (joinWith (LF +:+ LF) l)) ≠ 0.
Proof.
  intros Hl Hne. destruct l as [|p l]; [done |]. clear Hne.
  apply Forall_cons in Hl as [Hp _].
  destruct (fragment_begins_with_ink p Hp) as (a & p' & -> & Ha).
  cbn [joinWith]. destruct l; [by apply trim_not_blank |].
  rewrite append_cons. by apply trim_not_blank.
Qed.

(** ** What the other actions do *)

Lemma handleFinishSession_enter_accepts (c : Closure) (w : World) :
  truthy (sessionTitle (self c)) = true →
  String.length (trim (Ctx.transcript (ctx c))) ≠ 0 →
  handleFinishSession_enter c w
  = (Awaiting (Ctx.transcript (ctx c)), exec (setIsGeneratingSummary true) w).
Proof.
  intros Ht Hb. unfold handleFinishSession_enter. rewrite Ht. cbn.
  by case_bool_decide.
Qed.

Lemma resume_fulfilled (props : NewSessionFormProps) (r : TranscriptionState)
    (f before : FormState) (randomUUID now : string) (s : Summary) (w : World) :
  timer before = timer (form w) →
  exec (handleFinishSession_resume props (mkClosure (TranscriptionProvider r) f)
          randomUUID now (Fulfilled s) ;;
        timerEffectCleanup before) w
  = mkWorld (mkTranscription false ""
               (trackedAfterStop r (transcriptionInterval (provider w))))
            (mkForm "" false 0 (timer (form w)))
            (cleared (transcriptionInterval r) (intervals w))
            (nextHandle w)
            (toasts w ++ [sessionCompletedToast])
            (sessions w ++ [(patientId props,
                             Session.mk randomUUID (sessionTitle f) now
                               (durationOrOne (sessionDuration f)) (transcript r)
                               (text s) (keyPoints s) (prescriptions s))])
            (S (completions w)).
Proof.
  intros Htm.
  destruct r as [a t [h|]], w as [[a0 t0 i0] [ti g d tm] m n ts ss cs],
           before as [ti' g' d' tm'];
    cbn in Htm; subst; unfold exec, bind; cbn; unfold timerEffectCleanup; cbn;
    (case_decide as Hd; [reflexivity | by destruct Hd]).
Qed.

Lemma act_ChangeTitle (props : NewSessionFormProps) (value : string) (app : App) :
  act props (ChangeTitle value) app
  = mkApp (mkWorld (provider (world app))
                   (mkForm value (isGeneratingSummary (form (world app)))
                           (sessionDuration (form (world app)))
                           (timer (form (world app))))
                   (intervals (world app)) (nextHandle (world app))
                   (toasts (world app)) (sessions (world app))
                   (completions (world app)))
          (pending app).
Proof.
  destruct app as [[p [ti g d tm] m n ts ss cs] pend].
  unfold act, exec, bind, timerEffectCleanup; cbn. by case_decide.
Qed.

(** Pressing finish either shows a validation toast, or sets
    [isGeneratingSummary] and suspends with the handlers of this render. *)
Lemma act_PressFinish (props : NewSessionFormProps) (app : App) :
  let w := world app in
  (act props PressFinish app
   = mkApp (exec (toast (if truthy (sessionTitle (form w))
                         then emptyTranscriptToast else missingTitleToast)) w)
           (pending app)
   ∧ (sessionTitle (form w) = "" ∨ String.length (trim (transcript (provider w))) = 0))
  ∨ (act props PressFinish app
     = mkApp (exec (setIsGeneratingSummary true) w) (pending app ++ [closure w])
     ∧ validPending (closure w)).
Proof.
  intros w. subst w. unfold act.
  destruct (truthy (sessionTitle (form (world app)))) eqn:Et.
  - destruct (decide (String.length (trim (transcript (provider (world app)))) = 0))
      as [Hb | Hb].
    + left. rewrite handleFinishSession_enter_rejects by (by right).
      cbn. rewrite Et. by split; [| right].
    + right. rewrite handleFinishSession_enter_accepts by done. split; [done |].
      split; [done |]. split; [done |]. by eexists.
  - left. assert (sessionTitle (form (world app)) = "") as Hti
      by (by destruct (sessionTitle (form (world app)))).
    rewrite handleFinishSession_enter_rejects by (by left).
    cbn. rewrite Et. by split; [| left].
Qed.

Lemma act_Settle (props : NewSessionFormProps) (randomUUID now : string)
    (r : TranscriptionState) (f : FormState) (rest : list Closure) (w : World) :
  act props (Settle randomUUID now) (mkApp w (mkClosure (TranscriptionProvider r) f :: rest))
  = mkApp (mkWorld (mkTranscription false ""
                      (trackedAfterStop r (transcriptionInterval (provider w))))
                   (mkForm "" false 0 (timer (form w)))
                   (cleared (transcriptionInterval r) (intervals w))
                   (nextHandle w)
                   (toasts w ++ [sessionCompletedToast])
                   (sessions w ++ [(patientId props,
                                    Session.mk randomUUID (sessionTitle f) now
                                      (durationOrOne (sessionDuration f)) (transcript r)
                                      (text mockSummary) (keyPoints mockSummary) [])])
                   (S (completions w)))
          rest.
Proof. unfold act. cbn [pending world]. f_equal. by apply resume_fulfilled. Qed.

Lemma runApp_cons (props : NewSessionFormProps) (a : Action) (acts : list Action)
    (app : App) :
  runApp props (a :: acts) app = runApp props acts (act props a app).
Proof. reflexivity. Qed.

(** An invariant of single actions holds along every run. *)
Lemma runApp_invariant (props : NewSessionFormProps) (P : App → Prop) :
  (∀ a app, P app → P (act props a app)) →
  ∀ acts app, P app → P (runApp props acts app).
Proof.
  intros Hstep acts. induction acts as [|a acts IH]; intros app Happ; [done |].
  rewrite runApp_cons. apply IH. by apply Hstep.
Qed.

(** ** Invariants of the form *)

Lemma transcriptOfPhrases_dispatch (e : Event) (w : World) :
  transcriptOfPhrases w → transcriptOfPhrases (dispatch e w).
Proof.
  intros (l & Hl & Ht). destruct e.
  - rewrite dispatch_StartTranscription. by exists l.
  - rewrite dispatch_StopTranscription. by exists l.
  - rewrite dispatch_ResetTranscription. by exists [].
  - rewrite dispatch_HandleStartTranscription. by exists l.
  - rewrite dispatch_HandleStopTranscription. by exists l.
  - rewrite dispatch_Fire. destruct (intervals w !! h) as [[index|]|]; [| by exists l..].
    case_bool_decide as Hlt; [| by exists l].
    exists (l ++ [phraseAt (readIndex u index)]). split.
    + apply Forall_app. split; [done |]. constructor; [| done].
      apply phraseAt_is_fragment.
    + cbn. unfold appendPhrase. rewrite Ht. apply joinWith_snoc.
      by apply phrases_nonempty.
Qed.

Lemma idleTracksNothing_dispatch (e : Event) (w : World) :
  idleTracksNothing w → idleTracksNothing (dispatch e w).
Proof.
  intros Hw. unfold idleTracksNothing. destruct e.
  - by rewrite dispatch_StartTranscription.
  - by rewrite dispatch_StopTranscription.
  - by rewrite dispatch_ResetTranscription.
  - by rewrite dispatch_HandleStartTranscription.
  - by rewrite dispatch_HandleStopTranscription.
  - rewrite dispatch_Fire. destruct (intervals w !! h) as [[index|]|]; [| done..].
    by case_bool_decide.
Qed.

(** The events leave the collaborators' side, the title and the
    in-progress flag alone. *)
Lemma dispatch_collaborators (e : Event) (w : World) :
  sessions (dispatch e w) = sessions w
  ∧ completions (dispatch e w) = completions w
  ∧ sessionTitle (form (dispatch e w)) = sessionTitle (form w)
  ∧ isGeneratingSummary (form (dispatch e w)) = isGeneratingSummary (form w).
Proof.
  destruct e.
  - by rewrite dispatch_StartTranscription.
  - by rewrite dispatch_StopTranscription.
  - by rewrite dispatch_ResetTranscription.
  - by rewrite dispatch_HandleStartTranscription.
  - by rewrite dispatch_HandleStopTranscription.
  - rewrite dispatch_Fire. destruct (intervals w !! h) as [[index|]|]; [| done..].
    by case_bool_decide.
Qed.

Lemma appInvariant_initial (props : NewSessionFormProps) : appInvariant props initialApp.
Proof.
  split; [by constructor |]. split; [by exists [] |].
  split; [apply wellFormed_initial |]. by split; [constructor |].
Qed.

Lemma appInvariant_act (props : NewSessionFormProps) (a : Action) (app : App) :
  appInvariant props app → appInvariant props (act props a app).
Proof.
  intros (Hp & Ht & Hc & Hs & Hn). destruct a as [e | value | | randomUUID now].
  - destruct (dispatch_collaborators e (world app)) as (Es & Ec & _).
    unfold act; cbn [world pending]. unfold appInvariant; cbn [world pending].
    rewrite Es, Ec.
    split; [done |]. split; [by apply transcriptOfPhrases_dispatch |].
    split; [by apply countersTracked_dispatch |]. done.
  - rewrite act_ChangeTitle. by repeat split.
  - destruct (act_PressFinish props app) as [[-> _] | [-> Hv]].
    + by repeat split.
    + split; [| by repeat split]. apply Forall_app. split; [done |]. by constructor.
  - destruct app as [w [|[c f] rest]]; [by repeat split |].
    cbn [world pending] in *. apply Forall_cons in Hp as [(Hti & Hb & r & Hr) Hp].
    cbn in Hr, Hti, Hb. subst c. rewrite act_Settle.
    unfold appInvariant; cbn [world pending sessions completions].
    split; [done |]. split; [by exists [] |]. split.
    { intros h [Hm _]%lookup_cleared_Some. by apply Hc. }
    split.
    + apply Forall_app. split; [done |]. constructor; [| done]. cbn.
      split; [done |]. split; [by destruct (sessionTitle f) |]. split; [done |].
      split; [| done]. cbn. rewrite durationOrOne_max. lia.
    + rewrite length_app. cbn. lia.
Qed.

Lemma appInvariant_run (props : NewSessionFormProps) (acts : list Action) :
  appInvariant props (runApp props acts initialApp).
Proof.
  apply (runApp_invariant props (appInvariant props)).
  - intros a app. apply appInvariant_act.
  - apply appInvariant_initial.
Qed.

(** Whatever the user and the timers do, and whenever React runs the
    updaters, the transcript is fragments with a blank line between them,
    each fragment a phrase of the script or the text "undefined" (what the
    updater of the last tick reads past the end of the script when it runs
    at the next render): it never begins or ends with a separator, so it is
    blank exactly when it is empty, and the finish button is enabled exactly
    when there is a transcript and no summary is being generated. *)
Theorem transcript_is_script_phrases (props : NewSessionFormProps) (acts : list Action) :
  let w := world (runApp props acts initialApp) in
  (∃ l, Forall (λ p, p ∈ mockPhrases ∨ p = "undefined") l
        ∧ transcript (provider w) = joinWith (LF +:+ LF) l)
  ∧ (String.length (trim (transcript (provider w))) = 0 ↔ transcript (provider w) = "")
  ∧ finishEnabled (closure w)
    = negb (isGeneratingSummary (form w)) && truthy (transcript (provider w)).
Proof.
  intros w. destruct (appInvariant_run props acts) as (_ & (l & Hl & Ht) & _).
  fold w in Ht. split; [by exists l |].
  assert (String.length (trim (transcript (provider w))) = 0
          ↔ transcript (provider w) = "") as Hblank.
  { split; [| by intros ->]. intros Hb. rewrite Ht in *.
    destruct l as [|p l]; [done |]. by apply joinWith_not_blank in Hb. }
  split; [done |]. unfold finishEnabled; cbn.
  destruct (isGeneratingSummary (form w)); [done |]. cbn.
  case_bool_decide as Hb.
  - apply Hblank in Hb. by rewrite Hb.
  - destruct (transcript (provider w)) eqn:E; [| done]. by destruct Hb.
Qed.

(** Every record that reaches [addSession], under any sequence of actions,
    is for the patient of the form and has a non-empty title, a transcript
    that is not blank, a duration of at least one minute and the
    summarizer's text, key points and (empty) prescriptions; and completion
    is signalled once per record. *)
Theorem saved_sessions_are_well_formed (props : NewSessionFormProps) (acts : list Action) :
  let w := world (runApp props acts initialApp) in
  Forall (λ ps, ps.1 = patientId props ∧ wellFormedRecord ps.2) (sessions w)
  ∧ List.length (sessions w) = completions w.
Proof. intros w. by destruct (appInvariant_run props acts) as (_ & _ & _ & Hs & Hn). Qed.

(** ** Invariants of the timers *)

Lemma trackedIsNoCounter_dispatch (e : Event) (w : World) :
  trackedIsNoCounter w → trackedIsNoCounter (dispatch e w).
Proof.
  intros Hw. unfold trackedIsNoCounter. destruct e.
  - rewrite dispatch_StartTranscription; cbn. intros h [= <-].
    by rewrite lookup_insert_eq.
  - rewrite dispatch_StopTranscription; cbn. by intros h [=].
  - rewrite dispatch_ResetTranscription; cbn. by intros h [=].
  - rewrite dispatch_HandleStartTranscription; cbn. intros h [= <-].
    assert (<[S (nextHandle w) := DurationCounter]>
              (<[nextHandle w := FragmentSource 0]> (intervals w)) !! nextHandle w
            = Some (FragmentSource 0)) as Hs.
    { rewrite lookup_insert_ne by lia. apply lookup_insert_eq. }
    case_decide as Hd; [congruence |].
    intros [Hm _]%lookup_cleared_Some. congruence.
  - rewrite dispatch_HandleStopTranscription; cbn. by intros h [=].
  - rewrite dispatch_Fire. destruct (intervals w !! h) as [[index|]|] eqn:E; [| done..].
    case_bool_decide as Hlt; cbn.
    + intros h' Htr [[_ [=]] | [_ Hm]]%lookup_insert_Some. by eapply Hw.
    + intros h' Htr [_ Hm]%lookup_delete_Some. by eapply Hw.
Qed.

Lemma timerNamesCounter_dispatch (e : Event) (w : World) :
  handlesFresh w → trackedIsNoCounter w →
  timerNamesCounter w → timerNamesCounter (dispatch e w).
Proof.
  intros (Hi & Ht & Hp) Hn Hw. unfold timerNamesCounter. destruct e.
  - rewrite dispatch_StartTranscription; cbn. intros h Htm.
    rewrite lookup_insert_ne; [by apply Hw |]. apply Ht in Htm. lia.
  - rewrite dispatch_StopTranscription; cbn. intros h Htm.
    apply lookup_cleared_Some. split; [by apply Hw |].
    intros Htr. by eapply Hn, Hw.
  - rewrite dispatch_ResetTranscription; cbn. intros h Htm.
    apply lookup_cleared_Some. split; [by apply Hw |].
    intros Htr. by eapply Hn, Hw.
  - rewrite dispatch_HandleStartTranscription; cbn. intros h [= <-].
    assert (<[S (nextHandle w) := DurationCounter]>
              (<[nextHandle w := FragmentSource 0]> (intervals w)) !! S (nextHandle w)
            = Some DurationCounter) as Hs by apply lookup_insert_eq.
    case_decide as Hd; [done |]. apply lookup_cleared_Some. split; [done | congruence].
  - rewrite dispatch_HandleStopTranscription; cbn. by intros h [=].
  - rewrite dispatch_Fire. destruct (intervals w !! h) as [[index|]|] eqn:E; [| done..].
    case_bool_decide as Hlt; cbn; intros h' Htm; apply Hw in Htm.
    + rewrite lookup_insert_ne; [done | congruence].
    + rewrite lookup_delete_ne; [done | congruence].
Qed.

Lemma noCounterAt_dispatch (h : handle) (e : Event) (w : World) :
  noCounterAt h w → noCounterAt h (dispatch e w).
Proof.
  intros [Hlt Hm]. unfold noCounterAt. destruct e.
  - rewrite dispatch_StartTranscription; cbn. split; [lia |].
    by intros [[_ [=]] | [_ Hm']]%lookup_insert_Some.
  - rewrite dispatch_StopTranscription; cbn. split; [done |].
    by intros [Hm' _]%lookup_cleared_Some.
  - rewrite dispatch_ResetTranscription; cbn. split; [done |].
    by intros [Hm' _]%lookup_cleared_Some.
  - rewrite dispatch_HandleStartTranscription; cbn. split; [lia |].
    assert (<[S (nextHandle w) := DurationCounter]>
              (<[nextHandle w := FragmentSource 0]> (intervals w)) !! h
            ≠ Some DurationCounter) as Hs.
    { rewrite lookup_insert_ne by lia.
      by intros [[_ [=]] | [_ Hm']]%lookup_insert_Some. }
    case_decide as Hd; [done |]. by intros [Hm' _]%lookup_cleared_Some.
  - rewrite dispatch_HandleStopTranscription; cbn. split; [done |].
    by intros [[[Hm' _]%lookup_cleared_Some _]%lookup_cleared_Some _]%lookup_cleared_Some.
  - rewrite dispatch_Fire. destruct (intervals w !! h0) as [[index|]|] eqn:E; [| done..].
    case_bool_decide as Hb; cbn; (split; [done |]).
    + by intros [[_ [=]] | [_ Hm']]%lookup_insert_Some.
    + by intros [_ Hm']%lookup_delete_Some.
Qed.

Lemma timersInvariant_initial : timersInvariant initialApp.
Proof.
  split; [apply wellFormed_initial |]. split; [done |]. split; [done |]. constructor.
Qed.

Lemma timersInvariant_act (props : NewSessionFormProps) (a : Action) (app : App) :
  timersInvariant app → timersInvariant (act props a app).
Proof.
  intros (Hf & Hn & Ht & Hp). destruct a as [e | value | | randomUUID now].
  - unfold act, timersInvariant; cbn [world pending].
    split; [by apply handlesFresh_dispatch |].
    split; [by apply trackedIsNoCounter_dispatch |].
    split; [by apply timerNamesCounter_dispatch |].
    eapply Forall_impl; [exact Hp |]. intros c (r & Hr & Hh). exists r.
    split; [done |]. intros h Htr. by apply noCounterAt_dispatch, Hh.
  - rewrite act_ChangeTitle.
    split; [exact Hf | split; [exact Hn | split; [exact Ht | exact Hp]]].
  - assert (Forall (λ c, ∃ r, ctx c = TranscriptionProvider r
                           ∧ ∀ h, transcriptionInterval r = Some h
                                  → noCounterAt h (world app))
                   (pending app ++ [closure (world app)])) as Hp'.
    { apply Forall_app. split; [done |]. constructor; [| done].
      exists (provider (world app)). split; [done |]. intros h Htr.
      destruct Hf as (_ & _ & Hfp). split; [by apply Hfp | by apply Hn]. }
    destruct (act_PressFinish props app) as [[-> _] | [-> _]].
    + split; [exact Hf | split; [exact Hn | split; [exact Ht | exact Hp]]].
    + split; [exact Hf | split; [exact Hn | split; [exact Ht | exact Hp']]].
  - destruct app as [w [|[c f] rest]].
    { split; [exact Hf | split; [exact Hn | split; [exact Ht | exact Hp]]]. }
    cbn [world pending] in *. apply Forall_cons in Hp as [(r & Hr & Hh) Hp].
    cbn in Hr. subst c. rewrite act_Settle.
    unfold timersInvariant; cbn [world pending].
    destruct Hf as (Hfi & Hft & Hfp). split; [| split; [| split]].
    + split; [| split]; cbn.
      * intros h c [Hm _]%lookup_cleared_Some. by eapply Hfi.
      * done.
      * unfold trackedAfterStop. destruct (transcriptionInterval r); [done |].
        apply Hfp.
    + intros h. cbn. unfold trackedAfterStop.
      destruct (transcriptionInterval r); [done |]. cbn. apply Hn.
    + intros h Htm. cbn in *. apply lookup_cleared_Some. split; [by apply Ht |].
      intros Htr. apply Hh in Htr as [_ Hno]. by apply Ht in Htm.
    + eapply Forall_impl; [exact Hp |]. intros c (r' & Hr' & Hh'). exists r'.
      split; [done |]. intros h Htr. destruct (Hh' h Htr) as [Hlt Hno].
      split; [done |]. cbn. by intros [Hm _]%lookup_cleared_Some.
Qed.

Lemma timersInvariant_run (props : NewSessionFormProps) (acts : list Action) :
  timersInvariant (runApp props acts initialApp).
Proof.
  apply (runApp_invariant props timersInvariant).
  - intros a app. apply timersInvariant_act.
  - apply timersInvariant_initial.
Qed.

(** ** Pausing, clearing and finishing *)

Lemma pending_matches_flag_act (props : NewSessionFormProps) (a : Action) (app : App) :
  offered a app = true →
  appInvariant props app →
  List.length (pending app) = (if isGeneratingSummary (form (world app)) then 1 else 0) →
  List.length (pending (act props a app))
  = (if isGeneratingSummary (form (world (act props a app))) then 1 else 0).
Proof.
  intros Hoff (Hp & _) Hlen. destruct a as [e | value | | randomUUID now].
  - destruct (dispatch_collaborators e (world app)) as (_ & _ & _ & Eg).
    unfold act; cbn [world pending]. by rewrite Eg.
  - by rewrite act_ChangeTitle.
  - apply negb_true_iff, orb_false_iff in Hoff as [Hg _].
    change (isGeneratingSummary (form (world app)) = false) in Hg.
    rewrite Hg in Hlen.
    destruct (act_PressFinish props app) as [[-> _] | [-> _]]; cbn.
    + by rewrite Hg.
    + rewrite length_app, Hlen. done.
  - destruct app as [w [|[c f] rest]]; [done |].
    cbn [world pending] in *. apply Forall_cons in Hp as [(_ & _ & r & Hr) _].
    cbn in Hr. subst c. rewrite act_Settle. cbn.
    destruct (isGeneratingSummary (form w)); cbn in Hlen; lia.
Qed.

(** Through the rendered form at most one finish is in flight: a
    [handleFinishSession] is suspended exactly while [isGeneratingSummary]
    is set, which disables the finish button until the summary has
    arrived. *)
Theorem one_finish_in_flight (props : NewSessionFormProps) (acts : list Action) :
  allOffered props acts initialApp = true →
  let app := runApp props acts initialApp in
  List.length (pending app) = (if isGeneratingSummary (form (world app)) then 1 else 0)
  ∧ (finishEnabled (closure (world app)) = true → pending app = []).
Proof.
  intros Hoff app.
  assert (∀ acts0 app0,
            appInvariant props app0 →
            List.length (pending app0)
            = (if isGeneratingSummary (form (world app0)) then 1 else 0) →
            allOffered props acts0 app0 = true →
            List.length (pending (runApp props acts0 app0))
            = (if isGeneratingSummary (form (world (runApp props acts0 app0)))
               then 1 else 0)) as Hrun.
  { induction acts0 as [|a acts0 IH]; intros app0 Hinv Hlen Hall; [done |].
    cbn in Hall. apply andb_prop in Hall as [Ha Hall]. rewrite runApp_cons.
    apply IH; [by apply appInvariant_act | by apply pending_matches_flag_act | done]. }
  specialize (Hrun acts initialApp (appInvariant_initial props) eq_refl Hoff).
  fold app in Hrun. split; [done |]. intros Hen.
  apply negb_true_iff, orb_false_iff in Hen as [Hg _].
  change (isGeneratingSummary (form (world app)) = false) in Hg.
  rewrite Hg in Hrun. by destruct (pending app).
Qed.

Lemma one_finish_in_flight_witness :
  let acts := [Do HandleStartTranscription; Do (Fire 1 AtRender); ChangeTitle "Visit 1";
               PressFinish; Do (Fire 1 AtRender); Do HandleStopTranscription] in
  allOffered (mkProps "p1") acts initialApp = true
  ∧ List.length (pending (runApp (mkProps "p1") acts initialApp)) = 1
  ∧ offered PressFinish (runApp (mkProps "p1") acts initialApp) = false.
Proof.
  cbv zeta. split; [reflexivity |]. split; [| reflexivity].
  exact (proj1 (one_finish_in_flight (mkProps "p1")
    [Do HandleStartTranscription; Do (Fire 1 AtRender); ChangeTitle "Visit 1";
     PressFinish; Do (Fire 1 AtRender); Do HandleStopTranscription] eq_refl)).
Defined.

Lemma idleTracksNothing_run (tr : list Event) (w : World) :
  idleTracksNothing w → idleTracksNothing (run tr w).
Proof.
  revert w. induction tr as [|e tr IH]; intros w Hw; [done |].
  rewrite run_cons. apply IH. by apply idleTracksNothing_dispatch.
Qed.

(** In every execution of the context's operations, the form's start and
    pause handlers and timer ticks, stopping a session that is idle changes
    nothing at all, and so does clearing it when its transcript is empty. *)
Theorem stop_when_idle_is_a_noop (tr : list Event) :
  let w := run tr initial in
  isTranscribing (provider w) = false →
  dispatch StopTranscription w = w
  ∧ (transcript (provider w) = "" → dispatch ResetTranscription w = w).
Proof.
  intros w Hidle.
  assert (idleTracksNothing w) as Hi by (by apply idleTracksNothing_run).
  specialize (Hi Hidle).
  rewrite dispatch_StopTranscription, dispatch_ResetTranscription.
  destruct w as [[a t i] f m n ts ss cs]. cbn in *. subst. split; [done |].
  by intros ->.
Qed.

Lemma stop_when_idle_is_a_noop_witness :
  let w := run [HandleStartTranscription; Fire 1 AtRender; HandleStopTranscription] initial in
  isTranscribing (provider w) = false ∧ dispatch StopTranscription w = w.
Proof.
  cbv zeta. split; [reflexivity |].
  exact (proj1 (stop_when_idle_is_a_noop
    [HandleStartTranscription; Fire 1 AtRender; HandleStopTranscription] eq_refl)).
Defined.

Lemma no_counter_fires (ticks : list (handle * UpdaterRun)) (w : World) :
  countersTracked w → timer (form w) = None →
  sessionDuration (form (run ((λ t, Fire t.1 t.2) <$> ticks) w))
  = sessionDuration (form w).
Proof.
  revert w. induction ticks as [|[h u] ticks IH]; intros w Hc Htm; [done |].
  rewrite fmap_cons, run_cons. cbn [fst snd].
  assert (form (dispatch (Fire h u) w) = form w) as Hf.
  { rewrite dispatch_Fire. destruct (intervals w !! h) as [[index|]|] eqn:E; [| | done].
    - by case_bool_decide.
    - apply Hc in E. congruence. }
  rewrite IH; [by rewrite Hf | by apply countersTracked_dispatch | by rewrite Hf].
Qed.

(** After the pause button the counted minutes are frozen: the form tracks
    no timer, no duration counter is scheduled, and no timer that fires
    changes [sessionDuration], whenever React runs the updaters. *)
Theorem duration_frozen_after_pause
    (props : NewSessionFormProps) (acts : list Action)
    (ticks : list (handle * UpdaterRun)) :
  let w := dispatch HandleStopTranscription (world (runApp props acts initialApp)) in
  timer (form w) = None
  ∧ (∀ h, intervals w !! h ≠ Some DurationCounter)
  ∧ sessionDuration (form w) = sessionDuration (form (world (runApp props acts initialApp)))
  ∧ sessionDuration (form (run ((λ t, Fire t.1 t.2) <$> ticks) w))
    = sessionDuration (form w).
Proof.
  intros w. destruct (appInvariant_run props acts) as (_ & _ & Hc & _).
  apply (countersTracked_dispatch HandleStopTranscription) in Hc. fold w in Hc.
  assert (timer (form w) = None) as Htm
    by (subst w; by rewrite dispatch_HandleStopTranscription).
  split; [done |]. split; [| split].
  - intros h Hm. apply Hc in Hm. congruence.
  - subst w. by rewrite dispatch_HandleStopTranscription.
  - by apply no_counter_fires.
Qed.

(** The clear button stops the transcription and not the clock: pressed
    while the form tracks a timer, it leaves the session idle and empty with
    the duration counter still scheduled, and the next tick of that counter
    adds a minute. *)
Theorem clear_leaves_the_duration_counter_running
    (props : NewSessionFormProps) (acts : list Action) (h : handle) (u : UpdaterRun) :
  let w := world (runApp props acts initialApp) in
  timer (form w) = Some h →
  let w' := dispatch ResetTranscription w in
  isTranscribing (provider w') = false
  ∧ transcript (provider w') = ""
  ∧ intervals w' !! h = Some DurationCounter
  ∧ sessionDuration (form (dispatch (Fire h u) w')) = sessionDuration (form w) + 1.
Proof.
  intros w Htm w'. destruct (timersInvariant_run props acts) as (_ & Hn & Ht & _).
  fold w in Hn, Ht. pose proof (Ht h Htm) as Hm.
  assert (intervals w' !! h = Some DurationCounter) as Hm'.
  { subst w'. rewrite dispatch_ResetTranscription; cbn.
    apply lookup_cleared_Some. split; [done |]. intros Htr. by eapply Hn. }
  split; [by subst w'; rewrite dispatch_ResetTranscription |].
  split; [by subst w'; rewrite dispatch_ResetTranscription |].
  split; [done |]. rewrite dispatch_Fire, Hm'. cbn.
  subst w'. by rewrite dispatch_ResetTranscription.
Qed.

Lemma clear_leaves_the_duration_counter_running_witness :
  let w := world (runApp (mkProps "p1") [Do HandleStartTranscription; Do (Fire 2 AtRender)]
                         initialApp) in
  timer (form w) = Some 2
  ∧ sessionDuration (form (dispatch (Fire 2 AtRender) (dispatch ResetTranscription w)))
    = sessionDuration (form w) + 1.
Proof.
  cbv zeta. split; [reflexivity |].
  exact (proj2 (proj2 (proj2 (clear_leaves_the_duration_counter_running (mkProps "p1")
    [Do HandleStartTranscription; Do (Fire 2 AtRender)] 2 AtRender eq_refl)))).
Defined.

(** A finish that settles while the form tracks a timer resets the session
    and the counted minutes but not the clock: the duration counter stays
    scheduled under the tracked handle, and its next tick counts the first
    minute of a session that is not recording. *)
Theorem finish_leaves_the_duration_counter_running
    (props : NewSessionFormProps) (acts : list Action) (h : handle) (u : UpdaterRun)
    (randomUUID now : string) :
  let app := runApp props acts initialApp in
  timer (form (world app)) = Some h →
  pending app ≠ [] →
  let w' := world (act props (Settle randomUUID now) app) in
  isTranscribing (provider w') = false
  ∧ sessionDuration (form w') = 0
  ∧ timer (form w') = Some h
  ∧ intervals w' !! h = Some DurationCounter
  ∧ sessionDuration (form (dispatch (Fire h u) w')) = 1.
Proof.
  intros app Htm Hpend w'.
  pose proof (timersInvariant_act props (Settle randomUUID now) app
                (timersInvariant_run props acts)) as (_ & _ & Ht' & _).
  pose proof (timersInvariant_run props acts) as (_ & _ & _ & Hp). fold app in Hp.
  fold w' in Ht'. subst w'. destruct app as [w [|[c f] rest]]; [done |].
  apply Forall_cons in Hp as [(r & Hr & _) _]. cbn in Hr, Htm. subst c.
  rewrite act_Settle in *. cbn [world] in *.
  assert (cleared (transcriptionInterval r) (intervals w) !! h = Some DurationCounter)
    as Hm by (apply Ht'; by cbn).
  split; [done |]. split; [done |]. split; [done |]. split; [done |].
  rewrite dispatch_Fire. cbn [intervals]. by rewrite Hm.
Qed.

Lemma finish_leaves_the_duration_counter_running_witness :
  let app := runApp (mkProps "p1")
               [Do HandleStartTranscription; Do (Fire 1 AtRender); Do (Fire 2 AtRender);
                ChangeTitle "Visit 1"; PressFinish] initialApp in
  timer (form (world app)) = Some 2
  ∧ pending app ≠ []
  ∧ sessionDuration (form (dispatch (Fire 2 AtRender)
                             (world (act (mkProps "p1") (Settle "id" "now") app)))) = 1.
Proof.
  cbv zeta. split; [reflexivity |]. split; [discriminate |].
  refine (proj2 (proj2 (proj2 (proj2 (finish_leaves_the_duration_counter_running
    (mkProps "p1")
    [Do HandleStartTranscription; Do (Fire 1 AtRender); Do (Fire 2 AtRender);
     ChangeTitle "Visit 1"; PressFinish] 2 AtRender "id" "now" eq_refl _))))).
  discriminate.
Defined.

(** A finish that passes the validation and is not interleaved with
    anything hands [addSession] one record with the title, the counted
    minutes (at least one) and the transcript of the render and the
    summarizer's output, shows the completion toast, signals completion
    once, empties the title, the minutes and the transcript, and cancels the
    tracked fragment source; the form's [timer] and what else is scheduled
    stay. *)
Theorem finish_saves_the_render_and_resets
    (props : NewSessionFormProps) (w : World) (randomUUID now : string) :
  truthy (sessionTitle (form w)) = true →
  String.length (trim (transcript (provider w))) ≠ 0 →
  exec (handleFinishSession props (closure w) randomUUID now) w
  = mkWorld (mkTranscription false "" None)
            (mkForm "" false 0 (timer (form w)))
            (cleared (transcriptionInterval (provider w)) (intervals w))
            (nextHandle w)
            (toasts w ++ [sessionCompletedToast])
            (sessions w ++ [(patientId props,
                             Session.mk randomUUID (sessionTitle (form w)) now
                               (Nat.max 1 (sessionDuration (form w)))
                               (transcript (provider w))
                               (text mockSummary) (keyPoints mockSummary) [])])
            (S (completions w)).
Proof.
  intros Ht Hb. unfold exec, handleFinishSession, bind.
  rewrite handleFinishSession_enter_accepts by done.
  rewrite <- durationOrOne_max.
  destruct w as [[a t [h|]] [ti g d tm] m n ts ss cs]; reflexivity.
Qed.

Lemma finish_saves_the_render_and_resets_witness :
  let w := exec (setSessionTitle "Visit 1")
             (run [HandleStartTranscription; Fire 1 AtRender; HandleStopTranscription] initial) in
  truthy (sessionTitle (form w)) = true
  ∧ String.length (trim (transcript (provider w))) ≠ 0
  ∧ completions (exec (handleFinishSession (mkProps "p1") (closure w) "id" "now") w) = 1.
Proof.
  cbv zeta. split; [reflexivity |]. split; [discriminate |].
  rewrite finish_saves_the_render_and_resets; [reflexivity | reflexivity | discriminate].
Defined.

(** ** The mock script *)

Lemma tickFragments_cons (j : nat) (u : UpdaterRun) (us : list UpdaterRun) :
  tickFragments j (u :: us) = phraseAt (readIndex u j) :: tickFragments (S j) us.
Proof.
  unfold tickFragments. rewrite imap_cons, Nat.add_0_r. f_equal.
  apply imap_ext. intros i x _. cbn. do 2 f_equal. lia.
Qed.

Lemma fires_play_the_script (n : handle) (us : list UpdaterRun) :
  ∀ (j : nat) (w : World) (l : list string),
    intervals w !! n = Some (FragmentSource j) →
    (j + List.length us ≤ List.length mockPhrases)%nat →
    Forall (λ p, p ≠ "") l →
    transcript (provider w) = joinWith (LF +:+ LF) l →
    let w' := run (Fire n <$> us) w in
    intervals w' !! n = Some (FragmentSource (j + List.length us))
    ∧ transcript (provider w') = joinWith (LF +:+ LF) (l ++ tickFragments j us)
    ∧ isTranscribing (provider w') = isTranscribing (provider w)
    ∧ transcriptionInterval (provider w') = transcriptionInterval (provider w).
Proof.
  induction us as [|u us IH]; intros j w l Hm Hjk Hl Ht.
  - cbn. rewrite Nat.add_0_r, app_nil_r. done.
  - rewrite fmap_cons, run_cons. cbv zeta. cbn [List.length] in *.
    assert (j < List.length mockPhrases) as Hj by lia.
    set (p := phraseAt (readIndex u j)).
    assert (p ≠ "") as Hpne.
    { destruct (fragment_begins_with_ink p (phraseAt_is_fragment _))
        as (a & p' & Hp & _). by rewrite Hp. }
    set (w1 := dispatch (Fire n u) w).
    assert (intervals w1 !! n = Some (FragmentSource (S j))
            ∧ transcript (provider w1) = joinWith (LF +:+ LF) (l ++ [p])
            ∧ isTranscribing (provider w1) = isTranscribing (provider w)
            ∧ transcriptionInterval (provider w1) = transcriptionInterval (provider w))
      as (Hm1 & Ht1 & Ha1 & Hi1).
    { subst w1. rewrite dispatch_Fire, Hm. rewrite bool_decide_eq_true_2 by done. cbn.
      split; [apply lookup_insert_eq |]. split; [| done].
      unfold appendPhrase. rewrite Ht. by apply joinWith_snoc. }
    destruct (IH (S j) w1 (l ++ [p]) Hm1 ltac:(lia)
                ltac:(apply Forall_app; split; [done | by constructor]) Ht1)
      as (Hm2 & Ht2 & Ha2 & Hi2).
    split; [rewrite Hm2; do 2 f_equal; lia |].
    split; [| by rewrite Ha2, Hi2].
    by rewrite Ht2, <- app_assoc, tickFragments_cons.
Qed.

Lemma fires_of_a_cancelled_handle (n : handle) (us : list UpdaterRun) (w : World) :
  intervals w !! n = None → run (Fire n <$> us) w = w.
Proof.
  intros Hm. induction us as [|u us IH]; [done |].
  rewrite fmap_cons, run_cons, dispatch_Fire, Hm. exact IH.
Qed.

(** What [mockPhrases[i]] prints for every [i] up to the length of the
    script. *)
Lemma phraseAt_lookup (i : nat) :
  (i ≤ List.length mockPhrases)%nat →
  (mockPhrases ++ ["undefined"]) !! i = Some (phraseAt i).
Proof.
  intros Hi. destruct (decide (i < List.length mockPhrases)) as [Hlt | Hge].
  - rewrite lookup_app_l by done. unfold phraseAt.
    destruct (mockPhrases !! i) as [p|] eqn:E; [done |].
    apply lookup_ge_None in E. lia.
  - assert (i = List.length mockPhrases) as -> by lia.
    rewrite phraseAt_past_the_end by done. by rewrite list_lookup_middle.
Qed.

Lemma tickFragments_same_timing (u : UpdaterRun) (k : nat) :
  ∀ j, (readIndex u (j + k) ≤ S (List.length mockPhrases))%nat →
       tickFragments j (replicate k u)
       = take k (drop (readIndex u j) (mockPhrases ++ ["undefined"])).
Proof.
  induction k as [|k IH]; intros j Hjk; [done |].
  cbn [replicate]. rewrite tickFragments_cons.
  rewrite IH by (destruct u; cbn in *; lia).
  assert ((mockPhrases ++ ["undefined"]) !! readIndex u j = Some (phraseAt (readIndex u j)))
    as Hl by (apply phraseAt_lookup; destruct u; cbn in *; lia).
  rewrite (drop_S _ _ _ Hl). cbn [take]. by destruct u.
Qed.

(** One start plays the script once, and which phrases it plays depends on
    when React runs the updaters.  After the ticks [us] of its source (one
    timing per tick) the transcript of a session that was empty is the
    fragments the first eleven of these ticks read, with blank lines
    between them: tick [i] appends phrase [i] of the script when its updater
    runs inside the call and phrase [i + 1] when it runs at the next render,
    which is the text "undefined" for the eleventh tick.  So with all
    updaters run inside the call the transcript is the first [k] phrases,
    and with all run at render it is the script from its second phrase on,
    ending in "undefined".  The twelfth tick cancels the source, and the
    session stays flagged as transcribing with the handle of the cancelled
    source. *)
Theorem one_start_plays_the_script_once (w : World) (us : list UpdaterRun) :
  transcript (provider w) = "" →
  let n := nextHandle w in
  let w' := run (Fire n <$> us) (dispatch StartTranscription w) in
  transcript (provider w')
  = joinWith (LF +:+ LF) (tickFragments 0 (take (List.length mockPhrases) us))
  ∧ (∀ k, (k ≤ List.length mockPhrases)%nat → us = replicate k Eager →
          transcript (provider w') = joinWith (LF +:+ LF) (take k mockPhrases))
  ∧ (∀ k, (k ≤ List.length mockPhrases)%nat → us = replicate k AtRender →
          transcript (provider w')
          = joinWith (LF +:+ LF) (take k (drop 1 mockPhrases ++ ["undefined"])))
  ∧ intervals w' !! n
    = (if decide (List.length us ≤ List.length mockPhrases)%nat
       then Some (FragmentSource (List.length us)) else None)
  ∧ isTranscribing (provider w') = true
  ∧ transcriptionInterval (provider w') = Some n.
Proof.
  intros Ht n w'.
  set (w0 := dispatch StartTranscription w) in *.
  assert (intervals w0 !! n = Some (FragmentSource 0)
          ∧ transcript (provider w0) = joinWith (LF +:+ LF) []
          ∧ isTranscribing (provider w0) = true
          ∧ transcriptionInterval (provider w0) = Some n) as (Hm0 & Ht0 & Ha0 & Hi0).
  { subst w0. rewrite dispatch_StartTranscription. cbn.
    by split; [apply lookup_insert_eq |]. }
  assert (transcript (provider w')
          = joinWith (LF +:+ LF) (tickFragments 0 (take (List.length mockPhrases) us))
          ∧ intervals w' !! n
            = (if decide (List.length us ≤ List.length mockPhrases)%nat
               then Some (FragmentSource (List.length us)) else None)
          ∧ isTranscribing (provider w') = true
          ∧ transcriptionInterval (provider w') = Some n) as (Hmain & Hint & Hact & Htr).
  { case_decide as Hk.
    - destruct (fires_play_the_script n us 0 w0 [] Hm0 Hk ltac:(constructor) Ht0)
        as (Hm & Ht' & Ha & Hi).
      fold w' in Hm, Ht', Ha, Hi. rewrite take_ge by done.
      by rewrite Hm, Ht', Ha, Hi, Ha0, Hi0.
    - pose proof (take_drop (List.length mockPhrases) us) as Hsplit.
      destruct (drop (List.length mockPhrases) us) as [|u rest] eqn:Ed.
      { apply (f_equal List.length) in Ed. rewrite length_drop in Ed.
        change (List.length (@nil UpdaterRun)) with 0 in Ed. lia. }
      set (us1 := take (List.length mockPhrases) us) in *.
      assert (List.length us1 = List.length mockPhrases) as Hlen
        by (subst us1; rewrite length_take; lia).
      destruct (fires_play_the_script n us1 0 w0 [] Hm0 ltac:(lia) ltac:(constructor) Ht0)
        as (Hm & Ht' & Ha & Hi).
      assert (w' = run (Fire n <$> rest)
                     (dispatch (Fire n u) (run (Fire n <$> us1) w0))) as ->.
      { subst w'. rewrite <- Hsplit at 1. by rewrite fmap_app, run_app, fmap_cons, run_cons. }
      set (w1 := run (Fire n <$> us1) w0) in *.
      assert (dispatch (Fire n u) w1
              = mkWorld (provider w1) (form w1) (delete n (intervals w1))
                        (nextHandle w1) (toasts w1) (sessions w1) (completions w1)) as Hd.
      { rewrite dispatch_Fire, Hm. rewrite bool_decide_eq_false_2; [done |]. lia. }
      rewrite fires_of_a_cancelled_handle by (rewrite Hd; apply lookup_delete_eq).
      rewrite Hd. cbn [provider intervals].
      by rewrite lookup_delete_eq, Ht', Ha, Hi, Ha0, Hi0. }
  split; [done |]. split; [| split; [| done]].
  - intros k Hk ->. rewrite Hmain. f_equal.
    rewrite take_ge by (rewrite length_replicate; lia).
    rewrite tickFragments_same_timing by (cbn [readIndex]; lia). cbn [readIndex].
    rewrite drop_0. by rewrite take_app_le by done.
  - intros k Hk ->. rewrite Hmain. f_equal.
    rewrite take_ge by (rewrite length_replicate; lia).
    by rewrite tickFragments_same_timing by (cbn [readIndex]; lia).
Qed.

Lemma one_start_plays_the_script_once_witness :
  transcript (provider initial) = ""
  ∧ transcript (provider (run (Fire 1 <$> replicate 2 Eager)
                              (dispatch StartTranscription initial)))
    = joinWith (LF +:+ LF) (take 2 mockPhrases)
  ∧ transcript (provider (run (Fire 1 <$> replicate 11 AtRender)
                              (dispatch StartTranscription initial)))
    = joinWith (LF +:+ LF) (drop 1 mockPhrases ++ ["undefined"])
  ∧ intervals (run (Fire 1 <$> replicate 12 AtRender)
                   (dispatch StartTranscription initial)) !! 1
    = None.
Proof.
  split; [reflexivity |].
  split; [| split].
  - exact (proj1 (proj2 (one_start_plays_the_script_once initial (replicate 2 Eager)
                           eq_refl)) 2 ltac:(cbn; lia) eq_refl).
  - exact (proj1 (proj2 (proj2 (one_start_plays_the_script_once initial
                                  (replicate 11 AtRender) eq_refl)))
             11 ltac:(cbn; lia) eq_refl).
  - exact (proj1 (proj2 (proj2 (proj2 (one_start_plays_the_script_once initial
                                         (replicate 12 AtRender) eq_refl))))).
Defined.


(** The reset at the end of a finish works with the handle of the render
    that started the finish: a fragment source scheduled under another
    handle, one started while the summary was pending, is not cancelled.
    The session is left idle and empty with that source scheduled, and its
    next tick puts into the transcript of the idle session the fragment its
    updater reads ([mockPhrases[index]] run inside the call,
    [mockPhrases[index + 1]] run at the next render). *)
Theorem settled_finish_keeps_a_source_started_since
    (props : NewSessionFormProps) (w : World) (r : TranscriptionState) (f : FormState)
    (rest : list Closure) (randomUUID now : string) (h : handle) (index : nat)
    (u : UpdaterRun) :
  transcriptionInterval r ≠ Some h →
  intervals w !! h = Some (FragmentSource index) →
  index < List.length mockPhrases →
  let w' := world (act props (Settle randomUUID now)
                     (mkApp w (mkClosure (TranscriptionProvider r) f :: rest))) in
  isTranscribing (provider w') = false
  ∧ transcript (provider w') = ""
  ∧ intervals w' !! h = Some (FragmentSource index)
  ∧ isTranscribing (provider (dispatch (Fire h u) w')) = false
  ∧ transcript (provider (dispatch (Fire h u) w')) = phraseAt (readIndex u index).
Proof.
  intros Hne Hm Hlt w'. subst w'. rewrite act_Settle. cbn [world].
  assert (cleared (transcriptionInterval r) (intervals w) !! h
          = Some (FragmentSource index)) as Hm'
    by (by apply lookup_cleared_Some).
  split; [done |]. split; [done |]. split; [done |].
  rewrite dispatch_Fire. cbn [intervals]. rewrite Hm'.
  rewrite bool_decide_eq_true_2 by done. by split.
Qed.

Lemma settled_finish_keeps_a_source_started_since_witness :
  let w := world (runApp (mkProps "p1")
                    [Do HandleStartTranscription; Do (Fire 1 AtRender);
                     ChangeTitle "Visit 1"; PressFinish; Do HandleStopTranscription;
                     Do HandleStartTranscription]
                    initialApp) in
  let r := mkTranscription true (phraseAt 1) (Some 1) in
  let f := mkForm "Visit 1" false 0 (Some 2) in
  transcriptionInterval r ≠ Some 3
  ∧ intervals w !! 3 = Some (FragmentSource 0)
  ∧ 0 < List.length mockPhrases
  ∧ transcript (provider (dispatch (Fire 3 AtRender)
                            (world (act (mkProps "p1") (Settle "id" "now")
                                      (mkApp w [mkClosure (TranscriptionProvider r) f])))))
    = phraseAt 1.
Proof.
  cbv zeta.
  assert (intervals (world (runApp (mkProps "p1")
                      [Do HandleStartTranscription; Do (Fire 1 AtRender);
                       ChangeTitle "Visit 1"; PressFinish; Do HandleStopTranscription;
                       Do HandleStartTranscription]
                      initialApp)) !! 3 = Some (FragmentSource 0)) as Hm
    by (vm_compute; reflexivity).
  assert (0 < List.length mockPhrases) as Hlt by (cbn; lia).
  split; [discriminate |]. split; [exact Hm |]. split; [exact Hlt |].
  apply (settled_finish_keeps_a_source_started_since _ _ _ _ _ _ _ _ _ AtRender);
    [discriminate | exact Hm | exact Hlt].
Defined.
